(** * ReferenceLayernorm: the host reference of the 2D layer normalisation

    Shallow embedding of
    [library/include/ck/library/reference_tensor_operation/cpu/reference_layernorm.hpp]
    and the properties its specification states about it.

    The operator is a C++ template over six element types and a post
    operation.  The embedding keeps that shape: the element types are type
    parameters, [ck::type_convert] and the arithmetic of [ComputeDataType]
    are type classes, and the two instances used below are IEEE-754 binary
    formats (executable, on [SpecFloat]) and the real numbers (arithmetic
    without rounding). *)

From stdpp Require Import base option list gmap.
From Stdlib Require Import ZArith QArith Qabs Reals Lra Lia.
From Stdlib.Floats Require Import SpecFloat.

Close Scope Q_scope.
Close Scope R_scope.
Open Scope Z_scope.
Open Scope nat_scope.

(** ** Conversions and arithmetic of the template's element types *)

(** [ck::type_convert<To>(from)]. *)
Class TypeConvert (From To : Type) := type_convert : From → To.
Arguments type_convert {From} To {_} _ : assert.

(** What [Invoker::Run] asks of [ComputeDataType]: conversion from [int]
    (the literals [0], [1] and the count [N]), [+], [-], [*], [/] and
    [ck::math::sqrt].  In C++ a division whose second operand is zero is
    undefined unless the type follows IEC 559: [c_div_defined a b] tells
    whether [a / b] has a defined result, which is then [c_div a b]. *)
Class ComputeOps (C : Type) := {
  c_of_int : Z → C;
  c_add : C → C → C;
  c_sub : C → C → C;
  c_mul : C → C → C;
  c_div : C → C → C;
  c_div_defined : C → C → bool;
  c_sqrt : C → C;
}.

(** [a / b] as the program evaluates it: [None] is undefined behaviour. *)
Definition divide {C} `{!ComputeOps C} (a b : C) : option C :=
  if c_div_defined a b then Some (c_div a b) else None.

(** Types whose division is defined on every pair of operands (the IEC 559
    floating-point types). *)
Class DivTotal (C : Type) `{!ComputeOps C} :=
  c_div_total : ∀ a b : C, c_div_defined a b = true.

(** ** Loops *)

(** [for(int i = 0; i < count; ++i) body], from the index [i] on; the body
    may have undefined behaviour, which ends the loop. *)
Fixpoint for_loop {St : Type} (body : nat → St → option St)
    (i count : nat) (s : St) : option St :=
  match count with
  | O => Some s
  | S k => s' ← body i s; for_loop body (S i) k s'
  end.

(** ** The host tensor *)

Module HostTensor.

(** Modelled from the spec: the array collaborator [Tensor<T>] of
    [ck/library/utility/host_tensor.hpp], which is not part of the sources
    at hand.  The spec asks of it element access and mutation by
    multi-index and an extent query; it is modelled as the packed
    row-major tensor: the extents and the elements in one vector.  An
    access with the wrong number of indices, or past the end of the
    vector, is undefined behaviour ([None]). *)
Record Tensor (T : Type) := mkTensor { mLens : list nat; mData : list T }.
Arguments mkTensor {T} _ _.
Arguments mLens {T} _.
Arguments mData {T} _.

Definition product (lens : list nat) : nat := foldr Nat.mul 1 lens.

Fixpoint strides (lens : list nat) : list nat :=
  match lens with
  | [] => []
  | _ :: rest => product rest :: strides rest
  end.

Definition GetOffsetFromMultiIndex (lens idx : list nat) : option nat :=
  if decide (length idx = length lens)
  then Some (foldr Nat.add 0 (zip_with Nat.mul idx (strides lens)))
  else None.

(** [Tensor<T> t(lens)]: every element starts as [v]. *)
Definition make {T} (lens : list nat) (v : T) : Tensor T :=
  mkTensor lens (replicate (product lens) v).

(** [t(idx...)] read. *)
Definition get {T} (t : Tensor T) (idx : list nat) : option T :=
  o ← GetOffsetFromMultiIndex (mLens t) idx; mData t !! o.

(** [t(idx...) = v]. *)
Definition set {T} (t : Tensor T) (idx : list nat) (v : T) : option (Tensor T) :=
  o ← GetOffsetFromMultiIndex (mLens t) idx;
  if decide (o < length (mData t))
  then Some (mkTensor (mLens t) (<[o := v]> (mData t)))
  else None.

(** Modelled from the spec: [Tensor<To>(const Tensor<From>&)], the copy
    that the member initialisers [gamma_n_(gamma_n)] and [beta_n_(beta_n)]
    of [Argument] call when the element types differ; it belongs to
    [host_tensor.hpp] and is taken to convert element by element with
    [ck::type_convert], keeping the extents. *)
Definition CopyAsType {From To} `{!TypeConvert From To}
    (t : Tensor From) : Tensor To :=
  mkTensor (mLens t) (type_convert To <$> mData t).

(** A tensor of the given extents that owns all its elements. *)
Definition has_shape {T} (t : Tensor T) (lens : list nat) : Prop :=
  mLens t = lens ∧ length (mData t) = product lens.

End HostTensor.
Import HostTensor.

(** ** The operator *)

Abbreviation loc := positive.

(** The objects of the caller that the operator is handed by reference. *)
Inductive Obj (XDataType GammaDataType BetaDataType YDataType
               SaveMeanInvStdDataType : Type) :=
| ObjX (t : Tensor XDataType)
| ObjGamma (t : Tensor GammaDataType)
| ObjBeta (t : Tensor BetaDataType)
| ObjY (t : Tensor YDataType)
| ObjSave (t : Tensor SaveMeanInvStdDataType).
Arguments ObjX {_ _ _ _ _} t.
Arguments ObjGamma {_ _ _ _ _} t.
Arguments ObjBeta {_ _ _ _ _} t.
Arguments ObjY {_ _ _ _ _} t.
Arguments ObjSave {_ _ _ _ _} t.

(** The caller's memory: the tensors, each at its address. *)
Abbreviation Heap X G B Y S := (gmap loc (Obj X G B Y S)).

Section ReferenceLayernorm.

Context {XDataType GammaDataType BetaDataType YDataType
         SaveMeanInvStdDataType ComputeDataType : Type}.
Context `{!ComputeOps ComputeDataType}.
Context `{!TypeConvert XDataType ComputeDataType}.
Context `{!TypeConvert ComputeDataType YDataType}.
Context `{!TypeConvert ComputeDataType SaveMeanInvStdDataType}.
Context `{!TypeConvert GammaDataType XDataType}.
Context `{!TypeConvert BetaDataType XDataType}.

Local Abbreviation Memory :=
  (Heap XDataType GammaDataType BetaDataType YDataType SaveMeanInvStdDataType).

(** [struct Argument].  [x_m_n_], [gamma_n_] and [beta_n_] are members by
    value, all three declared [const Tensor<XDataType>]; [y_m_n_],
    [save_mean_m_] and [save_inv_std_m_] are references.
    [y_elementwise_op_(y, x)] is called with both parameters bound to the
    same variable and is kept as the function it computes on it. *)
Record Argument := mkArgument {
  x_m_n_ : Tensor XDataType;
  gamma_n_ : Tensor XDataType;
  beta_n_ : Tensor XDataType;
  y_m_n_ : loc;
  save_mean_m_ : loc;
  save_inv_std_m_ : loc;
  y_elementwise_op_ : ComputeDataType → ComputeDataType;
  lengths_ : list Z;
  reduceDims_ : list Z;
  epsilon_ : ComputeDataType;
}.

(** [MakeArgument] and the constructor of [Argument]: the three inputs are
    copied out of the caller's tensors into the members, which converts
    the scale and the shift to [Tensor<XDataType>]; the three outputs are
    kept as references.  No validation happens here. *)
Definition MakeArgument (h : Memory) (x_m_n gamma_n beta_n : loc)
    (y_m_n save_mean_m save_inv_std_m : loc)
    (y_elementwise_op : ComputeDataType → ComputeDataType)
    (lengths reduceDims : list Z) (epsilon : ComputeDataType)
    : option Argument :=
  match h !! x_m_n, h !! gamma_n, h !! beta_n with
  | Some (ObjX x), Some (ObjGamma g), Some (ObjBeta b) =>
      Some {| x_m_n_ := x;
              gamma_n_ := CopyAsType g;
              beta_n_ := CopyAsType b;
              y_m_n_ := y_m_n;
              save_mean_m_ := save_mean_m;
              save_inv_std_m_ := save_inv_std_m;
              y_elementwise_op_ := y_elementwise_op;
              lengths_ := lengths;
              reduceDims_ := reduceDims;
              epsilon_ := epsilon |}
  | _, _, _ => None
  end.

(** Writes through the three references. *)
Definition store_y (h : Memory) (l : loc) (idx : list nat) (v : YDataType)
    : option Memory :=
  match h !! l with
  | Some (ObjY t) => t' ← set t idx v; Some (<[l := ObjY t']> h)
  | _ => None
  end.

Definition store_save (h : Memory) (l : loc) (idx : list nat)
    (v : SaveMeanInvStdDataType) : option Memory :=
  match h !! l with
  | Some (ObjSave t) => t' ← set t idx v; Some (<[l := ObjSave t']> h)
  | _ => None
  end.

(** The local tensors [mean] and [var] of [Run]. *)
Definition Stats : Type := Tensor ComputeDataType * Tensor ComputeDataType.

(** [t(m) = f(t(m))] on a local tensor. *)
Definition update (t : Tensor ComputeDataType) (m : nat)
    (f : ComputeDataType → option ComputeDataType)
    : option (Tensor ComputeDataType) :=
  old ← get t [m]; new ← f old; set t [m] new.

(** Lines 87-92: the inner loop of the first pass. *)
Definition accumulate (arg : Argument) (m n : nat) (st : Stats) : option Stats :=
  x ← get (x_m_n_ arg) [m; n];
  let x_val := type_convert ComputeDataType x in
  mean ← update st.1 m (λ a, Some (c_add a x_val));
  var ← update st.2 m (λ a, Some (c_add a (c_mul x_val x_val)));
  Some (mean, var).

(** Lines 82-96: the body of the first pass for the row [m]. *)
Definition statistics (arg : Argument) (N : Z) (m : nat) (st : Stats) : option Stats :=
  mean ← set st.1 [m] (c_of_int 0);
  var ← set st.2 [m] (c_of_int 0);
  '(mean, var) ← for_loop (accumulate arg m) 0 (Z.to_nat N) (mean, var);
  mean ← update mean m (λ a, divide a (c_of_int N));
  mu ← get mean [m];
  var ← update var m (λ a, q ← divide a (c_of_int N); Some (c_sub q (c_mul mu mu)));
  Some (mean, var).

(** Lines 103-112: the inner loop of the second pass. *)
Definition normalize (arg : Argument) (mean : Tensor ComputeDataType)
    (divisor : ComputeDataType) (m n : nat) (h : Memory) : option Memory :=
  x ← get (x_m_n_ arg) [m; n];
  let x_val := type_convert ComputeDataType x in
  g ← get (gamma_n_ arg) [n];
  let gamma_val := type_convert ComputeDataType g in
  b ← get (beta_n_ arg) [n];
  let beta_val := type_convert ComputeDataType b in
  mu ← get mean [m];
  let y_val := c_mul (c_sub x_val mu) divisor in
  let y_val := c_add (c_mul y_val gamma_val) beta_val in
  let y_val := y_elementwise_op_ arg y_val in
  store_y h (y_m_n_ arg) [m; n] (type_convert YDataType y_val).

(** Lines 98-115: the body of the second pass for the row [m]. *)
Definition write_row (arg : Argument) (N : Z) (st : Stats) (m : nat) (h : Memory)
    : option Memory :=
  v ← get st.2 [m];
  divisor ← divide (c_of_int 1) (c_sqrt (c_add v (epsilon_ arg)));
  h ← for_loop (normalize arg st.1 divisor m) 0 (Z.to_nat N) h;
  mu ← get st.1 [m];
  h ← store_save h (save_mean_m_ arg) [m] (type_convert SaveMeanInvStdDataType mu);
  store_save h (save_inv_std_m_ arg) [m] (type_convert SaveMeanInvStdDataType divisor).

(** [float Invoker::Run(const Argument& arg)].  [lengths_[0]] and
    [lengths_[1]] past the end of the vector are undefined behaviour; the
    local tensors of extent [M] cannot be built for a negative [M].  The
    result is the [float] zero. *)
Definition Run (arg : Argument) (h : Memory) : option (spec_float * Memory) :=
  M ← lengths_ arg !! 0;
  N ← lengths_ arg !! 1;
  if decide (M < 0)%Z then None else
  let mean := make [Z.to_nat M] (c_of_int 0) in
  let var := make [Z.to_nat M] (c_of_int 0) in
  st ← for_loop (statistics arg N) 0 (Z.to_nat M) (mean, var);
  h ← for_loop (write_row arg N st) 0 (Z.to_nat M) h;
  Some (S754_zero false, h).

(** [device::BaseArgument] as seen by this operator: an [Argument] of its
    own, or the argument of some other operator. *)
Inductive BaseArgument :=
| LayernormArgument (arg : Argument)
| ForeignArgument (tag : nat).

(** [dynamic_cast<const Argument*>(p_arg)]: the null pointer ([None]) for
    a null pointer and for an object of another type. *)
Definition dynamic_cast (p_arg : option BaseArgument) : option Argument :=
  match p_arg with
  | Some (LayernormArgument arg) => Some arg
  | _ => None
  end.

(** [Run(const device::BaseArgument*, const StreamConfig&)]: dereferences
    the result of the cast; a null pointer there is undefined behaviour. *)
Definition Run_base (p_arg : option BaseArgument) (h : Memory)
    : option (spec_float * Memory) :=
  arg ← dynamic_cast p_arg; Run arg h.

(** The three tests of [IsSupportedArgument] on the object the pointer
    refers to. *)
Definition supported (arg : Argument) : bool :=
  if decide (length (lengths_ arg) ≠ 2) then false
  else if decide (length (reduceDims_ arg) ≠ 1) then false
  else if decide (reduceDims_ arg !! 0 ≠ Some 1%Z) then false
  else true.

(** [bool IsSupportedArgument(const device::BaseArgument* p_arg)]. *)
Definition IsSupportedArgument (p_arg : option BaseArgument) : option bool :=
  p_arg_ ← dynamic_cast p_arg; Some (supported p_arg_).

(** [IsValidCompilationParameter]. *)
Definition IsValidCompilationParameter : bool := true.

(** [p] permutes the row indices [0 .. M-1]. *)
Definition row_permutation (p : nat → nat) (M : nat) : Prop :=
  (∀ m, m < M → p m < M) ∧
  (∀ m m', m < M → m' < M → p m = p m' → m = m').

(** What the caller finds in its tensors afterwards. *)
Definition read_y (h : Memory) (l : loc) (idx : list nat) : option YDataType :=
  match h !! l with
  | Some (ObjY t) => get t idx
  | _ => None
  end.

Definition read_save (h : Memory) (l : loc) (idx : list nat)
    : option SaveMeanInvStdDataType :=
  match h !! l with
  | Some (ObjSave t) => get t idx
  | _ => None
  end.

(** The same invocation on another input, or with another [epsilon]. *)
Definition with_input (arg : Argument) (x : Tensor XDataType) : Argument :=
  mkArgument x (gamma_n_ arg) (beta_n_ arg) (y_m_n_ arg) (save_mean_m_ arg)
    (save_inv_std_m_ arg) (y_elementwise_op_ arg) (lengths_ arg)
    (reduceDims_ arg) (epsilon_ arg).

Definition with_epsilon (arg : Argument) (epsilon : ComputeDataType) : Argument :=
  mkArgument (x_m_n_ arg) (gamma_n_ arg) (beta_n_ arg) (y_m_n_ arg)
    (save_mean_m_ arg) (save_inv_std_m_ arg) (y_elementwise_op_ arg)
    (lengths_ arg) (reduceDims_ arg) epsilon.

(** *** The formulas of the specification

    The quantities the specification names, written once more from its
    words, to be compared with what [Run] leaves in memory. *)

(** The row [m] of the input, read in compute precision. *)
Definition row (arg : Argument) (N m : nat) : list ComputeDataType :=
  type_convert ComputeDataType <$> take N (drop (m * N) (mData (x_m_n_ arg))).

(** [Σ_n x] and [Σ_n x^2], accumulated from the left, starting at zero. *)
Definition row_sum (xs : list ComputeDataType) : ComputeDataType :=
  foldl c_add (c_of_int 0) xs.

Definition row_sum_sq (xs : list ComputeDataType) : ComputeDataType :=
  foldl (λ a x, c_add a (c_mul x x)) (c_of_int 0) xs.

(** [mean = sum / N]. *)
Definition row_mean (xs : list ComputeDataType) (N : Z) : ComputeDataType :=
  c_div (row_sum xs) (c_of_int N).

(** [variance = sumSq / N - mean^2]. *)
Definition row_variance (xs : list ComputeDataType) (N : Z) : ComputeDataType :=
  c_sub (c_div (row_sum_sq xs) (c_of_int N)) (c_mul (row_mean xs N) (row_mean xs N)).

(** The centered variance [Σ_n (x - mean)^2 / N], which [Run] does not
    compute. *)
Definition centered_variance (xs : list ComputeDataType) (N : Z) : ComputeDataType :=
  let mu := row_mean xs N in
  c_div (foldl (λ a x, c_add a (c_mul (c_sub x mu) (c_sub x mu))) (c_of_int 0) xs)
        (c_of_int N).

(** [invStd = 1 / sqrt(variance + epsilon)]. *)
Definition inv_std (v epsilon : ComputeDataType) : ComputeDataType :=
  c_div (c_of_int 1) (c_sqrt (c_add v epsilon)).

(** [postOp(((x - mean) * invStd) * scale + shift)]. *)
Definition affine (postOp : ComputeDataType → ComputeDataType)
    (mu d x g b : ComputeDataType) : ComputeDataType :=
  postOp (c_add (c_mul (c_mul (c_sub x mu) d) g) b).

Definition mean_at (arg : Argument) (N m : nat) : ComputeDataType :=
  row_mean (row arg N m) (Z.of_nat N).

Definition variance_at (arg : Argument) (N m : nat) : ComputeDataType :=
  row_variance (row arg N m) (Z.of_nat N).

Definition inv_std_at (arg : Argument) (N m : nat) : ComputeDataType :=
  inv_std (variance_at arg N m) (epsilon_ arg).

(** The value of the specification for [output[m,n]], from the elements of
    the three input members of the argument. *)
Definition output_at (arg : Argument) (N m n : nat) : option YDataType :=
  x ← get (x_m_n_ arg) [m; n];
  g ← get (gamma_n_ arg) [n];
  b ← get (beta_n_ arg) [n];
  Some (type_convert YDataType
          (affine (y_elementwise_op_ arg) (mean_at arg N m) (inv_std_at arg N m)
                  (type_convert ComputeDataType x)
                  (type_convert ComputeDataType g)
                  (type_convert ComputeDataType b))).

(** The three divisions of the row [m] have a defined result. *)
Definition row_defined (arg : Argument) (N m : nat) : Prop :=
  c_div_defined (row_sum (row arg N m)) (c_of_int (Z.of_nat N)) = true ∧
  c_div_defined (row_sum_sq (row arg N m)) (c_of_int (Z.of_nat N)) = true ∧
  c_div_defined (c_of_int 1)
    (c_sqrt (c_add (variance_at arg N m) (epsilon_ arg))) = true.

(** The data-model invariant of an invocation on the memory [h]: the
    declared shape is [(M, N)], the members and the referenced tensors
    have the extents that go with it, and the two diagnostic references
    are two tensors. *)
Record valid_invocation (arg : Argument) (h : Memory) (M N : nat) : Prop := {
  valid_lengths : lengths_ arg = [Z.of_nat M; Z.of_nat N];
  valid_x : has_shape (x_m_n_ arg) [M; N];
  valid_gamma : has_shape (gamma_n_ arg) [N];
  valid_beta : has_shape (beta_n_ arg) [N];
  valid_y : ∃ y, h !! y_m_n_ arg = Some (ObjY y) ∧ has_shape y [M; N];
  valid_save_mean :
    ∃ s, h !! save_mean_m_ arg = Some (ObjSave s) ∧ has_shape s [M];
  valid_save_inv_std :
    ∃ s, h !! save_inv_std_m_ arg = Some (ObjSave s) ∧ has_shape s [M];
  valid_distinct : save_mean_m_ arg ≠ save_inv_std_m_ arg;
  valid_divisions : ∀ m, m < M → row_defined arg N m;
}.

(** What the specification says is in memory after [Run]: every element
    of the output and of the two diagnostic vectors holds its formula. *)
Record computed (arg : Argument) (h : Memory) (M N : nat) : Prop := {
  computed_y : ∃ y, h !! y_m_n_ arg = Some (ObjY y) ∧ has_shape y [M; N] ∧
    ∀ m n, m < M → n < N → is_Some (output_at arg N m n) ∧
                             get y [m; n] = output_at arg N m n;
  computed_save_mean :
    ∃ s, h !! save_mean_m_ arg = Some (ObjSave s) ∧ has_shape s [M] ∧
    ∀ m, m < M →
      get s [m] = Some (type_convert SaveMeanInvStdDataType (mean_at arg N m));
  computed_save_inv_std :
    ∃ s, h !! save_inv_std_m_ arg = Some (ObjSave s) ∧ has_shape s [M] ∧
    ∀ m, m < M →
      get s [m] = Some (type_convert SaveMeanInvStdDataType (inv_std_at arg N m));
}.

(** Nothing but the three referenced tensors differs between [h] and [h']. *)
Definition only_outputs_differ (arg : Argument) (h h' : Memory) : Prop :=
  ∀ l, l ≠ y_m_n_ arg → l ≠ save_mean_m_ arg → l ≠ save_inv_std_m_ arg →
       h' !! l = h !! l.

End ReferenceLayernorm.

Section DirectConversion.

Context {XDataType GammaDataType BetaDataType YDataType ComputeDataType : Type}.
Context `{!ComputeOps ComputeDataType}.
Context `{!TypeConvert XDataType ComputeDataType}.
Context `{!TypeConvert ComputeDataType YDataType}.
Context `{!TypeConvert GammaDataType ComputeDataType}.
Context `{!TypeConvert BetaDataType ComputeDataType}.

(** The value of the specification for [output[m,n]] on the tensors of
    the caller, when each scale and shift element goes from its declared
    storage type to compute precision in one conversion. *)
Definition output_direct (x : Tensor XDataType) (gamma : Tensor GammaDataType)
    (beta : Tensor BetaDataType) (postOp : ComputeDataType → ComputeDataType)
    (epsilon : ComputeDataType) (N m n : nat) : option YDataType :=
  xv ← get x [m; n];
  g ← get gamma [n];
  b ← get beta [n];
  let xs := type_convert ComputeDataType <$> take N (drop (m * N) (mData x)) in
  let mu := row_mean xs (Z.of_nat N) in
  let d := inv_std (row_variance xs (Z.of_nat N)) epsilon in
  Some (type_convert YDataType
          (affine postOp mu d (type_convert ComputeDataType xv)
                  (type_convert ComputeDataType g)
                  (type_convert ComputeDataType b))).

End DirectConversion.

(** ** Two compute precisions *)

(** The IEEE-754 binary formats, on the executable specification of the
    Standard Library: round to nearest, ties to even. *)
Module IEEE754.

Record format := mkFormat { prec : Z; emax : Z }.

Definition binary16 : format := mkFormat 11 16.
Definition binary32 : format := mkFormat 24 128.
Definition binary64 : format := mkFormat 53 1024.

(** A value of the format [f]. *)
Definition float (f : format) : Type := spec_float.

(** Rounding of any binary floating-point value into the format [f]. *)
Definition round (f : format) (x : spec_float) : float f :=
  match x with
  | S754_finite s m e => binary_round (prec f) (emax f) s m e
  | _ => x
  end.

Definition of_int (f : format) (z : Z) : float f :=
  binary_normalize (prec f) (emax f) z 0 false.

#[export] Instance float_ops (f : format) : ComputeOps (float f) := {|
  c_of_int := of_int f;
  c_add := SFadd (prec f) (emax f);
  c_sub := SFsub (prec f) (emax f);
  c_mul := SFmul (prec f) (emax f);
  c_div := SFdiv (prec f) (emax f);
  c_div_defined := λ _ _, true;
  c_sqrt := SFsqrt (prec f) (emax f);
|}.

#[export] Instance float_div_total (f : format) : DivTotal (float f).
Proof. intros a b. reflexivity. Qed.

#[export] Instance float_convert (f1 f2 : format)
  : TypeConvert (float f1) (float f2) := round f2.

(** The rational number a finite value stands for. *)
Definition to_Q (x : spec_float) : option Q :=
  match x with
  | S754_zero _ => Some 0%Q
  | S754_finite s m e =>
      let v := match e with
               | Zneg p => Qmake (Zpos m) (2 ^ p)
               | _ => inject_Z (Zpos m * 2 ^ e)
               end in
      Some (if s then Qopp v else v)
  | _ => None
  end.

(** [x] is finite and stands for [q]. *)
Definition exactly (x : spec_float) (q : Q) : Prop :=
  match to_Q x with
  | Some v => (v == q)%Q
  | None => False
  end.

(** [x] is finite and within [tol] of [q]. *)
Definition near (x : spec_float) (q tol : Q) : Prop :=
  match to_Q x with
  | Some v => (Qabs (v - q) < tol)%Q
  | None => False
  end.

End IEEE754.

(** The real numbers: the arithmetic the formulas of the specification are
    written in, where nothing is rounded and only a division by zero is
    undefined. *)
Module Exact.

#[export] Instance real_ops : ComputeOps R := {|
  c_of_int := IZR;
  c_add := Rplus;
  c_sub := Rminus;
  c_mul := Rmult;
  c_div := Rdiv;
  c_div_defined := λ _ b, if Req_dec_T b 0%R then false else true;
  c_sqrt := sqrt;
|}.

#[export] Instance real_convert : TypeConvert R R := λ x, x.

End Exact.

(** ** The concrete scenario of the specification

    One row [1, 2, 3, 4], scale all ones, shift all zeros, [epsilon = 1e-5],
    the identity as post operation; every element type is [float]. *)
Module Scenario.
Import IEEE754.

Abbreviation F32 := (float binary32).

Definition f32 (z : Z) : F32 := of_int binary32 z.

Definition input : Tensor F32 := mkTensor [1; 4] (f32 <$> [1; 2; 3; 4]%Z).
Definition scale : Tensor F32 := mkTensor [4] (f32 <$> [1; 1; 1; 1]%Z).
Definition shift : Tensor F32 := mkTensor [4] (f32 <$> [0; 0; 0; 0]%Z).

(** [1e-5f]: the [float] nearest to 1/100000. *)
Definition epsilon : F32 := c_div (f32 1) (f32 100000).

(** The caller's tensors; the three outputs hold arbitrary values. *)
Definition memory : Heap F32 F32 F32 F32 F32 :=
  {[ 1%positive := ObjX input;
     2%positive := ObjGamma scale;
     3%positive := ObjBeta shift;
     4%positive := ObjY (make [1; 4] (f32 7));
     5%positive := ObjSave (make [1] (f32 8));
     6%positive := ObjSave (make [1] (f32 9)) ]}.

Definition argument : @Argument F32 F32 :=
  mkArgument input (CopyAsType scale) (CopyAsType shift)
    4%positive 5%positive 6%positive (λ y, y) [1; 4]%Z [1]%Z epsilon.

(** A second row, [1, 2, 4], on which rounding tells the two variance
    formulas apart. *)
Definition input_124 : Tensor F32 := mkTensor [1; 3] (f32 <$> [1; 2; 4]%Z).

Definition argument_124 : @Argument F32 F32 :=
  mkArgument input_124 (mkTensor [3] (f32 <$> [1; 1; 1]%Z))
    (mkTensor [3] (f32 <$> [0; 0; 0]%Z))
    4%positive 5%positive 6%positive (λ y, y) [1; 3]%Z [1]%Z epsilon.

(** An invocation with no rows. *)
Definition argument_empty : @Argument F32 F32 :=
  mkArgument (mkTensor [0; 4] []) (CopyAsType scale) (CopyAsType shift)
    4%positive 5%positive 6%positive (λ y, y) [0; 4]%Z [1]%Z epsilon.

(** [float] arithmetic where no division has a defined result, to
    observe whether a run reaches one. *)
Definition no_division : ComputeOps F32 := {|
  c_of_int := of_int binary32;
  c_add := SFadd 24 128;
  c_sub := SFsub 24 128;
  c_mul := SFmul 24 128;
  c_div := SFdiv 24 128;
  c_div_defined := λ _ _, false;
  c_sqrt := SFsqrt 24 128;
|}.

End Scenario.

(** Two rows and the same two rows swapped. *)
Module TwoRows.
Import IEEE754.

Abbreviation F32 := (float binary32).

Definition input : Tensor F32 := mkTensor [2; 2] (Scenario.f32 <$> [1; 2; 3; 5]%Z).
Definition swapped : Tensor F32 := mkTensor [2; 2] (Scenario.f32 <$> [3; 5; 1; 2]%Z).
Definition swap (m : nat) : nat := 1 - m.

Definition memory : Heap F32 F32 F32 F32 F32 :=
  {[ 4%positive := ObjY (make [2; 2] (Scenario.f32 7));
     5%positive := ObjSave (make [2] (Scenario.f32 8));
     6%positive := ObjSave (make [2] (Scenario.f32 9)) ]}.

(** The same outputs holding other values beforehand, and the caller's
    input next to them. *)
Definition memory' : Heap F32 F32 F32 F32 F32 :=
  {[ 1%positive := ObjX input;
     4%positive := ObjY (make [2; 2] (Scenario.f32 0));
     5%positive := ObjSave (make [2] (Scenario.f32 1));
     6%positive := ObjSave (make [2] (Scenario.f32 2)) ]}.

Definition argument : @Argument F32 F32 :=
  mkArgument input (mkTensor [2] (Scenario.f32 <$> [2; 3]%Z))
    (mkTensor [2] (Scenario.f32 <$> [1; 0]%Z))
    4%positive 5%positive 6%positive (λ y, y) [2; 2]%Z [1]%Z Scenario.epsilon.

End TwoRows.

(** A constant row and two neighbouring values of [epsilon] in [float]. *)
Module ConstantRow.
Import IEEE754.

Abbreviation F32 := (float binary32).

Definition argument : @Argument F32 F32 :=
  mkArgument (mkTensor [1; 4] (Scenario.f32 <$> [3; 3; 3; 3]%Z))
    Scenario.scale Scenario.shift
    4%positive 5%positive 6%positive (λ y, y) [1; 4]%Z [1]%Z Scenario.epsilon.

(** The two [float] values that follow [1e-5f]. *)
Definition epsilon1 : F32 := SFsucc 24 128 Scenario.epsilon.
Definition epsilon2 : F32 := SFsucc 24 128 epsilon1.

(** The same row in the real numbers. *)
Definition real_memory : Heap R R R R R :=
  {[ 4%positive := ObjY (make [1; 4] 0%R);
     5%positive := ObjSave (make [1] 0%R);
     6%positive := ObjSave (make [1] 0%R) ]}.

Definition real_argument : @Argument R R :=
  mkArgument (mkTensor [1; 4] [3; 3; 3; 3]%R)
    (mkTensor [4] [1; 1; 1; 1]%R) (mkTensor [4] [0; 0; 0; 0]%R)
    4%positive 5%positive 6%positive (λ y, y) [1; 4]%Z [1]%Z 1%R.

End ConstantRow.

(** The input in [half], the scale and the shift in [float]: the scale
    2049 is a [float] that no [half] equals. *)
Module MixedPrecision.
Import IEEE754.

Abbreviation F16 := (float binary16).
Abbreviation F32 := (float binary32).

Definition input : Tensor F16 := mkTensor [1; 4] (of_int binary16 <$> [1; 2; 3; 4]%Z).
Definition scale : Tensor F32 :=
  mkTensor [4] (of_int binary32 <$> [2049; 2049; 2049; 2049]%Z).
Definition shift : Tensor F32 := mkTensor [4] (of_int binary32 <$> [0; 0; 0; 0]%Z).

Definition memory : Heap F16 F32 F32 F32 F32 :=
  {[ 1%positive := ObjX input;
     2%positive := ObjGamma scale;
     3%positive := ObjBeta shift;
     4%positive := ObjY (make [1; 4] (of_int binary32 0));
     5%positive := ObjSave (make [1] (of_int binary32 0));
     6%positive := ObjSave (make [1] (of_int binary32 0)) ]}.

End MixedPrecision.

(** ** Further views of an invocation *)

(** The same invocation with another scale, shift and post operation. *)
Definition with_affine {X C : Type} (arg : @Argument X C)
    (gamma beta : Tensor X) (op : C → C) : @Argument X C :=
  mkArgument (x_m_n_ arg) gamma beta (y_m_n_ arg) (save_mean_m_ arg)
    (save_inv_std_m_ arg) op (lengths_ arg) (reduceDims_ arg) (epsilon_ arg).

(** The same invocation with another declared shape and other reduced
    axes. *)
Definition with_shape {X C : Type} (arg : @Argument X C)
    (lengths reduceDims : list Z) : @Argument X C :=
  mkArgument (x_m_n_ arg) (gamma_n_ arg) (beta_n_ arg) (y_m_n_ arg)
    (save_mean_m_ arg) (save_inv_std_m_ arg) (y_elementwise_op_ arg)
    lengths reduceDims (epsilon_ arg).

(** Two objects of the same kind and the same extents.  An input, a scale
    or a shift only is like itself. *)
Definition obj_like {X G B Y S : Type} (o o' : Obj X G B Y S) : Prop :=
  match o, o' with
  | ObjY t, ObjY t' =>
      mLens t = mLens t' ∧ length (mData t) = length (mData t')
  | ObjSave t, ObjSave t' =>
      mLens t = mLens t' ∧ length (mData t) = length (mData t')
  | _, _ => o = o'
  end.

(** The same addresses hold objects of the same kind and extents. *)
Definition same_layout {X G B Y S : Type} (h h' : Heap X G B Y S) : Prop :=
  ∀ l, option_Forall2 obj_like (h !! l) (h' !! l).

(** Inputs at the edges: a changed row, a post operation that is not the
    identity, a shape without columns, a NaN, and a row of real numbers. *)
Module EdgeCases.
Import IEEE754.

Abbreviation F32 := (float binary32).

(** [TwoRows.input] with another second row. *)
Definition changed_row : Tensor F32 :=
  mkTensor [2; 2] (Scenario.f32 <$> [1; 2; 7; 9]%Z).

(** [TwoRows.input] with a NaN in the first row. *)
Definition with_nan : Tensor F32 :=
  mkTensor [2; 2] [Scenario.f32 1; S754_nan; Scenario.f32 3; Scenario.f32 5].

Definition other_scale : Tensor F32 := mkTensor [2] (Scenario.f32 <$> [5; 6]%Z).
Definition other_shift : Tensor F32 := mkTensor [2] (Scenario.f32 <$> [7; 8]%Z).
Definition square (y : F32) : F32 := c_mul y y.

(** Two rows of no columns. *)
Definition no_columns : @Argument F32 F32 :=
  mkArgument (mkTensor [2; 0] []) (mkTensor [0] []) (mkTensor [0] [])
    4%positive 5%positive 6%positive (λ y, y) [2; 0]%Z [1]%Z Scenario.epsilon.

Definition no_columns_memory : Heap F32 F32 F32 F32 F32 :=
  {[ 4%positive := ObjY (mkTensor [2; 0] []);
     5%positive := ObjSave (make [2] (Scenario.f32 8));
     6%positive := ObjSave (make [2] (Scenario.f32 9)) ]}.

(** One row of no columns, in the real numbers. *)
Definition real_no_columns : @Argument R R :=
  mkArgument (mkTensor [1; 0] []) (mkTensor [0] []) (mkTensor [0] [])
    4%positive 5%positive 6%positive (λ y, y) [1; 0]%Z [1]%Z 1%R.

(** The row [1, 2, 3, 6] in the real numbers. *)
Definition real_row : Tensor R := mkTensor [1; 4] [1; 2; 3; 6]%R.

End EdgeCases.

(** ** Facts on the host tensor *)

Section TensorFacts.

Context {T : Type}.
Implicit Types (t : Tensor T) (d : list T).

Lemma offset_1d (M m : nat) : GetOffsetFromMultiIndex [M] [m] = Some m.
Proof.
  unfold GetOffsetFromMultiIndex. case_decide; [|done].
  simpl. f_equal. lia.
Qed.

Lemma offset_2d (M N m n : nat) :
  GetOffsetFromMultiIndex [M; N] [m; n] = Some (m * N + n).
Proof.
  unfold GetOffsetFromMultiIndex. case_decide; [|done].
  simpl. f_equal. lia.
Qed.

Lemma get_1d M d m : get (mkTensor [M] d) [m] = d !! m.
Proof. unfold get. cbn [mLens mData]. by rewrite offset_1d. Qed.

Lemma get_2d M N d m n : get (mkTensor [M; N] d) [m; n] = d !! (m * N + n).
Proof. unfold get. cbn [mLens mData]. by rewrite offset_2d. Qed.

Lemma set_1d M d m v :
  m < length d → set (mkTensor [M] d) [m] v = Some (mkTensor [M] (<[m := v]> d)).
Proof.
  intros Hm. unfold set. cbn [mLens mData]. rewrite offset_1d. simpl.
  by case_decide.
Qed.

Lemma set_2d M N d m n v :
  m * N + n < length d →
  set (mkTensor [M; N] d) [m; n] v = Some (mkTensor [M; N] (<[m * N + n := v]> d)).
Proof.
  intros Hm. unfold set. cbn [mLens mData]. rewrite offset_2d. simpl.
  by case_decide.
Qed.

Lemma has_shape_inv t lens :
  has_shape t lens → ∃ d, t = mkTensor lens d ∧ length d = product lens.
Proof. destruct t as [l d]. intros [Hl Hd]. simpl in *. subst. eauto. Qed.

Lemma has_shape_mk lens d : length d = product lens → has_shape (mkTensor lens d) lens.
Proof. by split. Qed.

Lemma product_1d M : product [M] = M.
Proof. unfold product. simpl. lia. Qed.

Lemma product_2d M N : product [M; N] = M * N.
Proof. unfold product. simpl. lia. Qed.

Lemma offset_in_range (M N m n : nat) : m < M → n < N → m * N + n < M * N.
Proof. nia. Qed.

End TensorFacts.

(** One turn of [for_loop]. *)
Lemma for_loop_S {St} (body : nat → St → option St) i k s :
  for_loop body i (S k) s = body i s ≫= for_loop body (S i) k.
Proof. done. Qed.


(** ** The two passes of [Run] *)

Section RunFacts.

Context {XDataType GammaDataType BetaDataType YDataType
         SaveMeanInvStdDataType ComputeDataType : Type}.
Context `{!ComputeOps ComputeDataType}.
Context `{!TypeConvert XDataType ComputeDataType}.
Context `{!TypeConvert ComputeDataType YDataType}.
Context `{!TypeConvert ComputeDataType SaveMeanInvStdDataType}.
Context `{!TypeConvert GammaDataType XDataType}.
Context `{!TypeConvert BetaDataType XDataType}.

Local Abbreviation Arg := (@Argument XDataType ComputeDataType).
Local Abbreviation Mem :=
  (Heap XDataType GammaDataType BetaDataType YDataType SaveMeanInvStdDataType).

Implicit Types (arg : Arg) (h : Mem) (d : list ComputeDataType).

(** *** Reading the input *)

Lemma row_lookup arg M N m n :
  has_shape (x_m_n_ arg) [M; N] → m < M → n < N →
  ∃ x, get (x_m_n_ arg) [m; n] = Some x ∧
       row arg N m !! n = Some (type_convert ComputeDataType x).
Proof.
  intros (dx & Hx & Hlen)%has_shape_inv Hm Hn. rewrite product_2d in Hlen.
  pose proof (offset_in_range M N m n Hm Hn) as Hoff.
  destruct (lookup_lt_is_Some_2 dx (m * N + n)) as [x Hlook]; [lia|].
  exists x. unfold row. rewrite Hx, get_2d. split; [done|].
  cbn [mData]. rewrite list_lookup_fmap, lookup_take_lt, lookup_drop by done.
  by rewrite Hlook.
Qed.

Lemma length_row arg M N m :
  has_shape (x_m_n_ arg) [M; N] → m < M → length (row arg N m) = N.
Proof.
  intros (dx & Hx & Hlen)%has_shape_inv Hm. rewrite product_2d in Hlen.
  unfold row. rewrite Hx. cbn [mData].
  rewrite length_fmap, length_take, length_drop. nia.
Qed.

Lemma vector_lookup (t : Tensor XDataType) N n :
  has_shape t [N] → n < N → ∃ x, get t [n] = Some x.
Proof.
  intros (dx & -> & Hlen)%has_shape_inv Hn. rewrite product_1d in Hlen.
  rewrite get_1d. apply lookup_lt_is_Some_2. lia.
Qed.

(** *** First pass *)

Lemma update_1d M d m a (f : ComputeDataType → option ComputeDataType) b :
  d !! m = Some a → f a = Some b →
  update (mkTensor [M] d) m f = Some (mkTensor [M] (<[m := b]> d)).
Proof.
  intros Ha Hb. unfold update. rewrite get_1d, Ha. simpl. rewrite Hb. simpl.
  apply set_1d. by eapply lookup_lt_Some.
Qed.

Lemma accumulate_step arg M m n d1 d2 a1 a2 x :
  get (x_m_n_ arg) [m; n] = Some x →
  d1 !! m = Some a1 → d2 !! m = Some a2 →
  accumulate arg m n (mkTensor [M] d1, mkTensor [M] d2) =
  Some (mkTensor [M] (<[m := c_add a1 (type_convert ComputeDataType x)]> d1),
        mkTensor [M]
          (<[m := c_add a2 (c_mul (type_convert ComputeDataType x)
                                  (type_convert ComputeDataType x))]> d2)).
Proof.
  intros Hget H1 H2. unfold accumulate. rewrite Hget.
  cbn [mbind option_bind fst snd].
  erewrite (update_1d M d1), (update_1d M d2) by done.
  done.
Qed.

Lemma accumulate_loop arg M N m k : ∀ n d1 d2 a1 a2,
  has_shape (x_m_n_ arg) [M; N] → m < M → n + k ≤ N →
  d1 !! m = Some a1 → d2 !! m = Some a2 →
  for_loop (accumulate arg m) n k (mkTensor [M] d1, mkTensor [M] d2) =
  Some (mkTensor [M]
          (<[m := foldl c_add a1 (take k (drop n (row arg N m)))]> d1),
        mkTensor [M]
          (<[m := foldl (λ a x, c_add a (c_mul x x)) a2
                    (take k (drop n (row arg N m)))]> d2)).
Proof.
  induction k as [|k IH]; intros n d1 d2 a1 a2 Hx Hm Hn H1 H2.
  - simpl. by rewrite !list_insert_id.
  - rewrite for_loop_S.
    destruct (row_lookup arg M N m n) as (x & Hget & Hrow); [done|done|lia|].
    erewrite accumulate_step by done. cbn [mbind option_bind].
    erewrite IH; [|done|done|lia| |].
    + rewrite !list_insert_insert_eq.
      rewrite (drop_S _ _ _ Hrow). done.
    + apply list_lookup_insert_eq. by eapply lookup_lt_Some.
    + apply list_lookup_insert_eq. by eapply lookup_lt_Some.
Qed.

Lemma divide_defined (a b : ComputeDataType) :
  c_div_defined a b = true → divide a b = Some (c_div a b).
Proof. intros Hd. unfold divide. by rewrite Hd. Qed.

Lemma statistics_row arg M N m d1 d2 :
  has_shape (x_m_n_ arg) [M; N] → m < M →
  length d1 = M → length d2 = M → row_defined arg N m →
  statistics arg (Z.of_nat N) m (mkTensor [M] d1, mkTensor [M] d2) =
  Some (mkTensor [M] (<[m := mean_at arg N m]> d1),
        mkTensor [M] (<[m := variance_at arg N m]> d2)).
Proof.
  intros Hx Hm Hl1 Hl2 (Hdef1 & Hdef2 & _).
  unfold statistics. cbn [fst snd].
  rewrite !set_1d by lia. cbn [mbind option_bind].
  rewrite Nat2Z.id.
  erewrite (accumulate_loop arg M N m N 0); [|done|done|lia| |];
    [|apply list_lookup_insert_eq; lia..].
  cbn [mbind option_bind]. rewrite !list_insert_insert_eq.
  rewrite drop_0, firstn_all2 by (erewrite length_row; done).
  fold (row_sum (row arg N m)) (row_sum_sq (row arg N m)).
  erewrite update_1d;
    [|apply list_lookup_insert_eq; lia|by apply divide_defined].
  cbn [mbind option_bind]. rewrite list_insert_insert_eq.
  rewrite get_1d, list_lookup_insert_eq by lia. cbn [mbind option_bind].
  erewrite update_1d; [|apply list_lookup_insert_eq; lia|].
  2:{ rewrite divide_defined by done. done. }
  cbn [mbind option_bind]. by rewrite list_insert_insert_eq.
Qed.

Lemma statistics_loop arg M N k : ∀ m d1 d2,
  has_shape (x_m_n_ arg) [M; N] → m + k ≤ M →
  length d1 = M → length d2 = M →
  (∀ j, j < M → row_defined arg N j) →
  ∃ d1' d2',
    for_loop (statistics arg (Z.of_nat N)) m k (mkTensor [M] d1, mkTensor [M] d2)
      = Some (mkTensor [M] d1', mkTensor [M] d2') ∧
    length d1' = M ∧ length d2' = M ∧
    (∀ j, m ≤ j < m + k →
       d1' !! j = Some (mean_at arg N j) ∧ d2' !! j = Some (variance_at arg N j)) ∧
    (∀ j, j < m → d1' !! j = d1 !! j ∧ d2' !! j = d2 !! j).
Proof.
  induction k as [|k IH]; intros m d1 d2 Hx Hm Hl1 Hl2 Hdef.
  - exists d1, d2. simpl. repeat split; try done. all: lia.
  - rewrite for_loop_S.
    rewrite (statistics_row arg M N m d1 d2) by (try done; try lia; apply Hdef; lia).
    cbn [mbind option_bind].
    destruct (IH (S m) (<[m := mean_at arg N m]> d1) (<[m := variance_at arg N m]> d2))
      as (d1' & d2' & Hrun & Hl1' & Hl2' & Hnew & Hold);
      [done|lia|by rewrite length_insert..|done|].
    exists d1', d2'. split; [done|]. split; [done|]. split; [done|]. split.
    + intros j Hj. destruct (decide (j = m)) as [->|Hne].
      * destruct (Hold m) as [-> ->]; [lia|].
        rewrite !list_lookup_insert_eq by lia. done.
      * apply Hnew. lia.
    + intros j Hj. destruct (Hold j) as [-> ->]; [lia|].
      rewrite !list_lookup_insert_ne by lia. done.
Qed.

(** *** Second pass *)

Lemma store_y_2d h l M N dy m n v :
  h !! l = Some (ObjY (mkTensor [M; N] dy)) → m * N + n < length dy →
  store_y h l [m; n] v =
  Some (<[l := ObjY (mkTensor [M; N] (<[m * N + n := v]> dy))]> h).
Proof.
  intros Hl Hlt. unfold store_y. rewrite Hl. by rewrite set_2d.
Qed.

Lemma store_save_1d h l M ds m v :
  h !! l = Some (ObjSave (mkTensor [M] ds)) → m < length ds →
  store_save h l [m] v = Some (<[l := ObjSave (mkTensor [M] (<[m := v]> ds))]> h).
Proof.
  intros Hl Hlt. unfold store_save. rewrite Hl. by rewrite set_1d.
Qed.

Lemma output_at_defined arg M N m n :
  has_shape (x_m_n_ arg) [M; N] → has_shape (gamma_n_ arg) [N] →
  has_shape (beta_n_ arg) [N] → m < M → n < N →
  is_Some (output_at (YDataType := YDataType) arg N m n).
Proof.
  intros Hx Hg Hb Hm Hn. unfold output_at.
  destruct (row_lookup arg M N m n) as (x & -> & _); [done..|].
  destruct (vector_lookup (gamma_n_ arg) N n) as [g ->]; [done..|].
  destruct (vector_lookup (beta_n_ arg) N n) as [b ->]; [done..|].
  by eexists.
Qed.

Lemma normalize_step arg M N dm m n h dy :
  has_shape (x_m_n_ arg) [M; N] → has_shape (gamma_n_ arg) [N] →
  has_shape (beta_n_ arg) [N] → m < M → n < N →
  dm !! m = Some (mean_at arg N m) →
  h !! y_m_n_ arg = Some (ObjY (mkTensor [M; N] dy)) → length dy = M * N →
  ∃ v, output_at arg N m n = Some v ∧
    normalize arg (mkTensor [M] dm) (inv_std_at arg N m) m n h =
    Some (<[y_m_n_ arg := ObjY (mkTensor [M; N] (<[m * N + n := v]> dy))]> h).
Proof.
  intros Hx Hg Hb Hm Hn Hmu Hy Hlen.
  unfold output_at, normalize.
  destruct (row_lookup arg M N m n) as (x & -> & _); [done..|].
  destruct (vector_lookup (gamma_n_ arg) N n) as [g ->]; [done..|].
  destruct (vector_lookup (beta_n_ arg) N n) as [b ->]; [done..|].
  rewrite get_1d, Hmu. cbn [mbind option_bind].
  eexists. split; [done|].
  erewrite store_y_2d; [done|done|].
  pose proof (offset_in_range M N m n Hm Hn). lia.
Qed.

Lemma normalize_loop arg M N dm m k : ∀ n h dy,
  has_shape (x_m_n_ arg) [M; N] → has_shape (gamma_n_ arg) [N] →
  has_shape (beta_n_ arg) [N] → m < M → n + k ≤ N →
  dm !! m = Some (mean_at arg N m) →
  h !! y_m_n_ arg = Some (ObjY (mkTensor [M; N] dy)) → length dy = M * N →
  ∃ dy',
    for_loop (normalize arg (mkTensor [M] dm) (inv_std_at arg N m) m) n k h =
    Some (<[y_m_n_ arg := ObjY (mkTensor [M; N] dy')]> h) ∧
    length dy' = M * N ∧
    (∀ j, n ≤ j < n + k → dy' !! (m * N + j) = output_at arg N m j) ∧
    (∀ o, ¬ (m * N + n ≤ o < m * N + n + k) → dy' !! o = dy !! o).
Proof.
  induction k as [|k IH]; intros n h dy Hx Hg Hb Hm Hn Hmu Hy Hlen.
  - exists dy. simpl. rewrite insert_id by done.
    repeat split; try done. intros; lia.
  - rewrite for_loop_S.
    destruct (normalize_step arg M N dm m n h dy) as (v & Hv & ->);
      [done|done|done|done|lia|done|done|done|].
    cbn [mbind option_bind].
    pose proof (offset_in_range M N m n Hm ltac:(lia)) as Hoff.
    destruct (IH (S n) (<[y_m_n_ arg := ObjY (mkTensor [M; N] (<[m * N + n := v]> dy))]> h)
                (<[m * N + n := v]> dy))
      as (dy' & -> & Hlen' & Hnew & Hold);
      [done|done|done|done|lia|done|by rewrite lookup_insert_eq
      |by rewrite length_insert|].
    exists dy'. rewrite insert_insert_eq. split; [done|]. split; [done|]. split.
    + intros j Hj. destruct (decide (j = n)) as [->|Hne].
      * rewrite Hold by lia. rewrite list_lookup_insert_eq by lia. done.
      * apply Hnew. lia.
    + intros o Ho. rewrite Hold by lia. apply list_lookup_insert_ne. lia.
Qed.

Lemma write_row_spec arg M N d1 d2 m h dy ds di :
  has_shape (x_m_n_ arg) [M; N] → has_shape (gamma_n_ arg) [N] →
  has_shape (beta_n_ arg) [N] → m < M →
  d1 !! m = Some (mean_at arg N m) → d2 !! m = Some (variance_at arg N m) →
  row_defined arg N m →
  h !! y_m_n_ arg = Some (ObjY (mkTensor [M; N] dy)) → length dy = M * N →
  h !! save_mean_m_ arg = Some (ObjSave (mkTensor [M] ds)) → length ds = M →
  h !! save_inv_std_m_ arg = Some (ObjSave (mkTensor [M] di)) → length di = M →
  save_mean_m_ arg ≠ save_inv_std_m_ arg →
  ∃ dy',
    write_row arg (Z.of_nat N) (mkTensor [M] d1, mkTensor [M] d2) m h =
    Some (<[save_inv_std_m_ arg :=
              ObjSave (mkTensor [M]
                (<[m := type_convert SaveMeanInvStdDataType (inv_std_at arg N m)]> di))]>
          (<[save_mean_m_ arg :=
              ObjSave (mkTensor [M]
                (<[m := type_convert SaveMeanInvStdDataType (mean_at arg N m)]> ds))]>
          (<[y_m_n_ arg := ObjY (mkTensor [M; N] dy')]> h))) ∧
    length dy' = M * N ∧
    (∀ n, n < N → dy' !! (m * N + n) = output_at arg N m n) ∧
    (∀ o, ¬ (m * N ≤ o < m * N + N) → dy' !! o = dy !! o).
Proof.
  intros Hx Hg Hb Hm Hmu Hvar (_ & _ & Hdef) Hy Hlen Hs Hls Hi Hli Hne.
  assert (y_m_n_ arg ≠ save_mean_m_ arg) by congruence.
  assert (y_m_n_ arg ≠ save_inv_std_m_ arg) by congruence.
  unfold write_row. cbn [fst snd]. rewrite (get_1d M d2), Hvar. cbn [mbind option_bind].
  rewrite divide_defined by done. cbn [mbind option_bind].
  fold (inv_std (variance_at arg N m) (epsilon_ arg)).
  fold (inv_std_at arg N m). rewrite Nat2Z.id.
  destruct (normalize_loop arg M N d1 m N 0 h dy) as (dy' & -> & Hlen' & Hnew & Hold);
    [done|done|done|done|lia|done|done|done|].
  cbn [mbind option_bind]. rewrite (get_1d M d1), Hmu. cbn [mbind option_bind].
  erewrite store_save_1d; [|by rewrite lookup_insert_ne|lia].
  cbn [mbind option_bind].
  erewrite store_save_1d; [|by rewrite lookup_insert_ne, lookup_insert_ne|lia].
  exists dy'. split; [done|]. split; [done|]. split.
  - intros n Hn. apply Hnew. lia.
  - intros o Ho. apply Hold. lia.
Qed.

Lemma write_loop arg M N d1 d2 k : ∀ m h dy ds di,
  has_shape (x_m_n_ arg) [M; N] → has_shape (gamma_n_ arg) [N] →
  has_shape (beta_n_ arg) [N] → m + k ≤ M →
  (∀ j, j < M → d1 !! j = Some (mean_at arg N j) ∧
                 d2 !! j = Some (variance_at arg N j)) →
  (∀ j, j < M → row_defined arg N j) →
  h !! y_m_n_ arg = Some (ObjY (mkTensor [M; N] dy)) → length dy = M * N →
  h !! save_mean_m_ arg = Some (ObjSave (mkTensor [M] ds)) → length ds = M →
  h !! save_inv_std_m_ arg = Some (ObjSave (mkTensor [M] di)) → length di = M →
  save_mean_m_ arg ≠ save_inv_std_m_ arg →
  ∃ h' dy' ds' di',
    for_loop (write_row arg (Z.of_nat N) (mkTensor [M] d1, mkTensor [M] d2)) m k h
      = Some h' ∧
    h' !! y_m_n_ arg = Some (ObjY (mkTensor [M; N] dy')) ∧ length dy' = M * N ∧
    h' !! save_mean_m_ arg = Some (ObjSave (mkTensor [M] ds')) ∧ length ds' = M ∧
    h' !! save_inv_std_m_ arg = Some (ObjSave (mkTensor [M] di')) ∧ length di' = M ∧
    only_outputs_differ arg h h' ∧
    (∀ j n, m ≤ j < m + k → n < N → dy' !! (j * N + n) = output_at arg N j n) ∧
    (∀ j, m ≤ j < m + k →
       ds' !! j = Some (type_convert SaveMeanInvStdDataType (mean_at arg N j)) ∧
       di' !! j = Some (type_convert SaveMeanInvStdDataType (inv_std_at arg N j))) ∧
    (∀ o, o < m * N → dy' !! o = dy !! o) ∧
    (∀ j, j < m → ds' !! j = ds !! j ∧ di' !! j = di !! j).
Proof.
  induction k as [|k IH]; intros m h dy ds di Hx Hg Hb Hm Hst Hdef
    Hy Hlen Hs Hls Hi Hli Hne.
  - exists h, dy, ds, di. simpl. repeat split; try done. all: intros; lia.
  - assert (y_m_n_ arg ≠ save_mean_m_ arg) by congruence.
    assert (y_m_n_ arg ≠ save_inv_std_m_ arg) by congruence.
    rewrite for_loop_S.
    destruct (write_row_spec arg M N d1 d2 m h dy ds di)
      as (dy1 & -> & Hlen1 & Hnew1 & Hold1);
      [done|done|done|lia|apply Hst; lia|apply Hst; lia|apply Hdef; lia|done..|].
    cbn [mbind option_bind].
    match goal with
    | |- context [for_loop _ _ _ ?h1] =>
        destruct (IH (S m) h1 dy1
                    (<[m := type_convert SaveMeanInvStdDataType (mean_at arg N m)]> ds)
                    (<[m := type_convert SaveMeanInvStdDataType (inv_std_at arg N m)]> di))
          as (h' & dy' & ds' & di' & Hrun & Hy' & Hlen' & Hs' & Hls'
              & Hi' & Hli' & Hfr & Hnew & Hsave & Hold & Hsold)
    end; [done|done|done|lia|done|done| | | | | | |done|].
    { rewrite lookup_insert_ne, lookup_insert_ne, lookup_insert_eq; done. }
    { done. }
    { rewrite lookup_insert_ne, lookup_insert_eq; done. }
    { by rewrite length_insert. }
    { rewrite lookup_insert_eq; done. }
    { by rewrite length_insert. }
    exists h', dy', ds', di'. rewrite Hrun.
    split; [done|]. split; [done|]. split; [done|]. split; [done|].
    split; [done|]. split; [done|]. split; [done|]. split; [|split; [|split; [|split]]].
    + intros l H1 H2 H3. rewrite Hfr by done.
      by rewrite !lookup_insert_ne.
    + intros j n Hj Hn. destruct (decide (j = m)) as [->|Hjm].
      * rewrite Hold by nia. apply Hnew1. done.
      * apply Hnew; lia.
    + intros j Hj. destruct (decide (j = m)) as [->|Hjm].
      * destruct (Hsold m) as [-> ->]; [lia|].
        rewrite !list_lookup_insert_eq by lia. done.
      * apply Hsave. lia.
    + intros o Ho. rewrite Hold by nia. apply Hold1. lia.
    + intros j Hj. destruct (Hsold j) as [-> ->]; [lia|].
      rewrite !list_lookup_insert_ne by lia. done.
Qed.

(** *** The whole of [Run] *)

(** On a valid invocation [Run] returns, with the metric zero, and leaves
    in memory what the specification computes, touching nothing else. *)
Lemma Run_correct arg h M N :
  valid_invocation arg h M N →
  ∃ h', Run arg h = Some (S754_zero false, h') ∧
        computed arg h' M N ∧ only_outputs_differ arg h h'.
Proof.
  intros [Hlens Hx Hg Hb (y & Hy & Hys) (s & Hs & Hss) (i & Hi & His) Hne Hdef].
  apply has_shape_inv in Hys as (dy & -> & Hly). rewrite product_2d in Hly.
  apply has_shape_inv in Hss as (ds & -> & Hls). rewrite product_1d in Hls.
  apply has_shape_inv in His as (di & -> & Hli). rewrite product_1d in Hli.
  unfold Run. rewrite Hlens. cbn [lookup list_lookup mbind option_bind].
  case_decide; [lia|]. rewrite Nat2Z.id. unfold make.
  destruct (statistics_loop arg M N M 0
              (replicate (product [M]) (c_of_int 0))
              (replicate (product [M]) (c_of_int 0)))
    as (d1 & d2 & -> & Hl1 & Hl2 & Hst & _);
    [done|lia|by rewrite length_replicate, product_1d..|done|].
  cbn [mbind option_bind].
  destruct (write_loop arg M N d1 d2 M 0 h dy ds di)
    as (h' & dy' & ds' & di' & -> & Hy' & Hlen' & Hs' & Hls' & Hi' & Hli'
        & Hfr & Hnew & Hsave & _);
    [done|done|done|lia|intros; apply Hst; lia|done..|].
  cbn [mbind option_bind]. exists h'. split; [done|]. split; [|done].
  split.
  - eexists. split; [done|]. split; [by apply has_shape_mk; rewrite product_2d|].
    intros m n Hm Hn. split; [by eapply output_at_defined|].
    rewrite get_2d. apply Hnew; lia.
  - eexists. split; [done|]. split; [by apply has_shape_mk; rewrite product_1d|].
    intros m Hm. rewrite get_1d. apply Hsave. lia.
  - eexists. split; [done|]. split; [by apply has_shape_mk; rewrite product_1d|].
    intros m Hm. rewrite get_1d. apply Hsave. lia.
Qed.

(** *** Rows decide their results *)

Lemma row_ext arg1 arg2 M N m1 m2 :
  has_shape (x_m_n_ arg1) [M; N] → has_shape (x_m_n_ arg2) [M; N] →
  m1 < M → m2 < M →
  (∀ n, n < N → get (x_m_n_ arg2) [m2; n] = get (x_m_n_ arg1) [m1; n]) →
  row arg2 N m2 = row arg1 N m1.
Proof.
  intros Hx1 Hx2 Hm1 Hm2 Heq. apply list_eq. intros n.
  destruct (decide (n < N)) as [Hn|Hn].
  - destruct (row_lookup arg1 M N m1 n) as (x1 & Hg1 & ->); [done..|].
    destruct (row_lookup arg2 M N m2 n) as (x2 & Hg2 & ->); [done..|].
    rewrite Heq, Hg1 in Hg2 by done. by simplify_eq.
  - rewrite !lookup_ge_None_2; [done|erewrite length_row by done; lia..].
Qed.

Lemma row_constant arg M N m (c : XDataType) :
  has_shape (x_m_n_ arg) [M; N] → m < M →
  (∀ n, n < N → get (x_m_n_ arg) [m; n] = Some c) →
  row arg N m = replicate N (type_convert ComputeDataType c).
Proof.
  intros Hx Hm Hc. apply list_eq. intros n.
  destruct (decide (n < N)) as [Hn|Hn].
  - destruct (row_lookup arg M N m n) as (x & Hg & ->); [done..|].
    rewrite Hc in Hg by done. simplify_eq.
    by rewrite lookup_replicate_2.
  - rewrite lookup_ge_None_2 by (erewrite length_row by done; lia).
    symmetry. apply lookup_replicate_None. lia.
Qed.

(** A tensor is its extents and its elements. *)
Lemma tensor_ext_2d {T} (t1 t2 : Tensor T) M N :
  has_shape t1 [M; N] → has_shape t2 [M; N] →
  (∀ m n, m < M → n < N → get t1 [m; n] = get t2 [m; n]) → t1 = t2.
Proof.
  intros (d1 & -> & Hl1)%has_shape_inv (d2 & -> & Hl2)%has_shape_inv Heq.
  rewrite product_2d in Hl1, Hl2. f_equal. apply list_eq. intros o.
  destruct (decide (o < M * N)) as [Ho|Ho].
  - assert (N ≠ 0) as HN by nia.
    pose proof (Nat.div_mod_eq o N) as Hdm.
    pose proof (Nat.mod_upper_bound o N HN) as Hmod.
    assert (o `div` N < M) as Hdiv by (apply Nat.Div0.div_lt_upper_bound; lia).
    specialize (Heq _ _ Hdiv Hmod). rewrite !get_2d in Heq.
    replace (o `div` N * N + o `mod` N) with o in Heq by lia. done.
  - rewrite !lookup_ge_None_2 by lia. done.
Qed.

Lemma tensor_ext_1d {T} (t1 t2 : Tensor T) M :
  has_shape t1 [M] → has_shape t2 [M] →
  (∀ m, m < M → get t1 [m] = get t2 [m]) → t1 = t2.
Proof.
  intros (d1 & -> & Hl1)%has_shape_inv (d2 & -> & Hl2)%has_shape_inv Heq.
  rewrite product_1d in Hl1, Hl2. f_equal. apply list_eq. intros o.
  destruct (decide (o < M)) as [Ho|Ho].
  - specialize (Heq _ Ho). by rewrite !get_1d in Heq.
  - rewrite !lookup_ge_None_2 by lia. done.
Qed.

(** The three outputs after a run are decided by the argument alone. *)
Lemma computed_unique arg h1 h2 M N :
  computed arg h1 M N → computed arg h2 M N →
  h1 !! y_m_n_ arg = h2 !! y_m_n_ arg ∧
  h1 !! save_mean_m_ arg = h2 !! save_mean_m_ arg ∧
  h1 !! save_inv_std_m_ arg = h2 !! save_inv_std_m_ arg.
Proof.
  intros [(y1 & Hy1 & Hsy1 & Hv1) (s1 & Hs1 & Hss1 & Hm1) (i1 & Hi1 & Hsi1 & Hd1)]
         [(y2 & Hy2 & Hsy2 & Hv2) (s2 & Hs2 & Hss2 & Hm2) (i2 & Hi2 & Hsi2 & Hd2)].
  rewrite Hy1, Hy2, Hs1, Hs2, Hi1, Hi2. repeat split; do 2 f_equal.
  - eapply tensor_ext_2d; [done..|]. intros m n Hm Hn.
    destruct (Hv1 m n Hm Hn) as [_ ->]. destruct (Hv2 m n Hm Hn) as [_ ->]. done.
  - eapply tensor_ext_1d; [done..|]. intros m Hm. by rewrite Hm1, Hm2.
  - eapply tensor_ext_1d; [done..|]. intros m Hm. by rewrite Hd1, Hd2.
Qed.

End RunFacts.

(** ** The claims of the specification *)

Import IEEE754.

(** Every division of an IEC 559 type is defined. *)
Lemma row_defined_total {X C} `{!ComputeOps C} `{!DivTotal C} `{!TypeConvert X C}
    (arg : @Argument X C) (N m : nat) : row_defined arg N m.
Proof. repeat split; apply c_div_total. Qed.

Lemma supported_iff {X C} (arg : @Argument X C) :
  supported arg = true ↔ length (lengths_ arg) = 2 ∧ reduceDims_ arg = [1%Z].
Proof.
  unfold supported. split.
  - intros Hs. repeat case_decide; try done.
    split; [lia|].
    destruct (reduceDims_ arg) as [|r [|r' rest]]; simpl in *; try lia.
    destruct (decide (r = 1%Z)) as [->|Hr]; [done|].
    exfalso. naive_solver.
  - intros [Hl Hr]. rewrite Hr. repeat case_decide; simpl in *; done.
Qed.

Lemma scenario_MakeArgument :
  MakeArgument Scenario.memory 1 2 3 4 5 6 (λ y, y) [1; 4]%Z [1]%Z Scenario.epsilon
  = Some Scenario.argument.
Proof. reflexivity. Qed.

Lemma scenario_valid :
  valid_invocation Scenario.argument Scenario.memory 1 4.
Proof.
  split.
  - reflexivity.
  - by split.
  - by split.
  - by split.
  - eexists. split; [reflexivity|by split].
  - eexists. split; [reflexivity|by split].
  - eexists. split; [reflexivity|by split].
  - done.
  - intros m _. apply row_defined_total.
Qed.

(** C1. [Invoker::Run] on a supported argument of shape (M, N), N >= 1,
    returns and leaves in [output[m,n]], for every row m < M and column
    n < N, the value
    convert(postOp(((x[m,n] - mean[m]) * invStd[m]) * scale[n] + shift[n])),
    where x, scale and shift are the elements of the argument's members
    converted to compute precision, mean[m] is the mean of the row and
    invStd[m] = 1/sqrt(variance[m] + epsilon), all in the arithmetic of the
    compute type.  On the scenario row [1, 2, 3, 4] in [float] it computes
    mean 2.5 and variance 1.25 exactly, invStd within 5e-5 of 0.8944 and
    outputs within 5e-5 of [-1.3416, -0.4472, 0.4472, 1.3416]. *)
Theorem Run_writes_normalized_rows :
  (∀ (X G B Y S C : Type) `(!ComputeOps C) `(!TypeConvert X C) `(!TypeConvert C Y)
     `(!TypeConvert C S) (arg : @Argument X C) (h : Heap X G B Y S) (M N : nat),
     IsSupportedArgument (Some (LayernormArgument arg)) = Some true →
     1 ≤ N →
     valid_invocation arg h M N →
     ∃ h', Run arg h = Some (S754_zero false, h') ∧
       ∀ m n, m < M → n < N →
         ∃ x g b,
           get (x_m_n_ arg) [m; n] = Some x ∧
           get (gamma_n_ arg) [n] = Some g ∧
           get (beta_n_ arg) [n] = Some b ∧
           let mean := row_mean (row arg N m) (Z.of_nat N) in
           let invStd := inv_std (row_variance (row arg N m) (Z.of_nat N))
                                 (epsilon_ arg) in
           read_y h' (y_m_n_ arg) [m; n] =
           Some (type_convert Y
                   (y_elementwise_op_ arg
                      (c_add (c_mul (c_mul (c_sub (type_convert C x) mean) invStd)
                                    (type_convert C g))
                             (type_convert C b))))) ∧
  (∃ mean var h' invStd y0 y1 y2 y3,
     for_loop (statistics Scenario.argument 4) 0 1
       (make [1] (c_of_int 0), make [1] (c_of_int 0))
     = Some (mkTensor [1] [mean], mkTensor [1] [var]) ∧
     exactly mean (5 # 2) ∧ exactly var (5 # 4) ∧
     Run Scenario.argument Scenario.memory = Some (S754_zero false, h') ∧
     h' !! 5%positive = Some (ObjSave (mkTensor [1] [mean])) ∧
     h' !! 6%positive = Some (ObjSave (mkTensor [1] [invStd])) ∧
     h' !! 4%positive = Some (ObjY (mkTensor [1; 4] [y0; y1; y2; y3])) ∧
     near invStd (8944 # 10000) (5 # 100000) ∧
     near y0 (-13416 # 10000) (5 # 100000) ∧
     near y1 (-4472 # 10000) (5 # 100000) ∧
     near y2 (4472 # 10000) (5 # 100000) ∧
     near y3 (13416 # 10000) (5 # 100000)).
Proof.
  split.
  - intros X G B Y S C ? ? ? ? arg h M N _ _ Hvalid.
    destruct (Run_correct arg h M N Hvalid) as (h' & Hrun & [Hy _ _] & _).
    exists h'. split; [done|]. intros m n Hm Hn.
    destruct Hy as (y & Hly & _ & Hout).
    destruct (Hout m n Hm Hn) as [_ Hget].
    unfold read_y. rewrite Hly, Hget. clear Hget Hout.
    destruct Hvalid as [_ Hx Hg Hb _ _ _ _ _].
    unfold output_at.
    destruct (row_lookup arg M N m n) as (x & -> & _); [done..|].
    destruct (vector_lookup (gamma_n_ arg) N n) as [g ->]; [done..|].
    destruct (vector_lookup (beta_n_ arg) N n) as [b ->]; [done..|].
    by exists x, g, b.
  - do 8 eexists. split; [vm_compute; reflexivity|].
    split; [vm_compute; reflexivity|].
    split; [vm_compute; reflexivity|].
    split; [vm_compute; reflexivity|].
    split; [vm_compute; reflexivity|].
    split; [vm_compute; reflexivity|].
    split; [vm_compute; reflexivity|].
    repeat split; vm_compute; reflexivity.
Qed.

Lemma Run_writes_normalized_rows_witness :
  IsSupportedArgument (Some (LayernormArgument Scenario.argument)) = Some true ∧
  1 ≤ 4 ∧
  valid_invocation Scenario.argument Scenario.memory 1 4 ∧
  ∃ h', Run Scenario.argument Scenario.memory = Some (S754_zero false, h') ∧
    ∀ m n, m < 1 → n < 4 →
      ∃ x g b,
        get (x_m_n_ Scenario.argument) [m; n] = Some x ∧
        get (gamma_n_ Scenario.argument) [n] = Some g ∧
        get (beta_n_ Scenario.argument) [n] = Some b ∧
        let mean := row_mean (row Scenario.argument 4 m) (Z.of_nat 4) in
        let invStd := inv_std (row_variance (row Scenario.argument 4 m) (Z.of_nat 4))
                              (epsilon_ Scenario.argument) in
        read_y h' (y_m_n_ Scenario.argument) [m; n] =
        Some (type_convert Scenario.F32
                (y_elementwise_op_ Scenario.argument
                   (c_add (c_mul (c_mul (c_sub (type_convert Scenario.F32 x) mean) invStd)
                                 (type_convert Scenario.F32 g))
                          (type_convert Scenario.F32 b)))).
Proof.
  split; [reflexivity|]. split; [lia|]. split; [exact scenario_valid|].
  apply (proj1 Run_writes_normalized_rows
           _ _ _ _ _ _ _ _ _ _ Scenario.argument Scenario.memory 1 4);
    [reflexivity | lia | exact scenario_valid].
Defined.

(** C3. After [Run] on a supported argument with N >= 1, for every row m,
    [savedMean[m]] is the mean of the row and [savedInvStd[m]] is
    1/sqrt(variance[m] + epsilon), with the variance of the uncentered
    formula on the same row, each converted to the diagnostic storage type. *)
Theorem Run_saves_mean_and_inv_std :
  ∀ (X G B Y S C : Type) `(!ComputeOps C) `(!TypeConvert X C) `(!TypeConvert C Y)
    `(!TypeConvert C S) (arg : @Argument X C) (h : Heap X G B Y S) (M N : nat),
    IsSupportedArgument (Some (LayernormArgument arg)) = Some true →
    1 ≤ N →
    valid_invocation arg h M N →
    ∃ h', Run arg h = Some (S754_zero false, h') ∧
      ∀ m, m < M →
        read_save h' (save_mean_m_ arg) [m] =
          Some (type_convert S (row_mean (row arg N m) (Z.of_nat N))) ∧
        read_save h' (save_inv_std_m_ arg) [m] =
          Some (type_convert S
                  (inv_std (row_variance (row arg N m) (Z.of_nat N)) (epsilon_ arg))).
Proof.
  intros X G B Y S C ? ? ? ? arg h M N _ _ Hvalid.
  destruct (Run_correct arg h M N Hvalid) as (h' & Hrun & [_ Hmean Hinv] & _).
  exists h'. split; [done|]. intros m Hm.
  destruct Hmean as (s & Hs & _ & Hmean), Hinv as (i & Hi & _ & Hinv).
  unfold read_save. rewrite Hs, Hi. split; [by apply Hmean|by apply Hinv].
Qed.

Lemma Run_saves_mean_and_inv_std_witness :
  IsSupportedArgument (Some (LayernormArgument Scenario.argument)) = Some true ∧
  1 ≤ 4 ∧
  valid_invocation Scenario.argument Scenario.memory 1 4 ∧
  ∃ h', Run Scenario.argument Scenario.memory = Some (S754_zero false, h') ∧
    ∀ m, m < 1 →
      read_save h' (save_mean_m_ Scenario.argument) [m] =
        Some (type_convert Scenario.F32
                (row_mean (row Scenario.argument 4 m) (Z.of_nat 4))) ∧
      read_save h' (save_inv_std_m_ Scenario.argument) [m] =
        Some (type_convert Scenario.F32
                (inv_std (row_variance (row Scenario.argument 4 m) (Z.of_nat 4))
                         (epsilon_ Scenario.argument))).
Proof.
  split; [reflexivity|]. split; [lia|]. split; [exact scenario_valid|].
  apply (Run_saves_mean_and_inv_std
           _ _ _ _ _ _ _ _ _ _ Scenario.argument Scenario.memory 1 4);
    [reflexivity | lia | exact scenario_valid].
Defined.

(** Why the two diagnostic references have to be two tensors: handed the
    same tensor twice, [Run] writes the mean and then the inverse standard
    deviation over it. *)
Lemma Run_aliased_diagnostics :
  ∃ h' v,
    Run (mkArgument Scenario.input (CopyAsType Scenario.scale)
           (CopyAsType Scenario.shift) 4%positive 5%positive 5%positive
           (λ y, y) [1; 4]%Z [1]%Z Scenario.epsilon) Scenario.memory
      = Some (S754_zero false, h') ∧
    read_save h' 5%positive [0] = Some v ∧
    v = inv_std_at Scenario.argument 4 0 ∧
    v ≠ mean_at Scenario.argument 4 0.
Proof.
  do 2 eexists. split; [vm_compute; reflexivity|].
  split; [vm_compute; reflexivity|]. split; [vm_compute; reflexivity|].
  vm_compute. congruence.
Qed.

(** C4. [IsSupportedArgument] answers true exactly when the shape has rank
    two and the reduced axes are the one axis 1, and false for every other
    shape.  It is a function of the argument alone: it reads no memory and
    writes none. *)
Theorem IsSupportedArgument_shape_gate :
  ∀ (X C : Type) (arg : @Argument X C),
    (IsSupportedArgument (Some (LayernormArgument arg)) = Some true ↔
       length (lengths_ arg) = 2 ∧ reduceDims_ arg = [1%Z]) ∧
    (IsSupportedArgument (Some (LayernormArgument arg)) = Some false ↔
       ¬ (length (lengths_ arg) = 2 ∧ reduceDims_ arg = [1%Z])).
Proof.
  intros X C arg. unfold IsSupportedArgument. cbn [dynamic_cast mbind option_bind].
  pose proof (supported_iff arg) as Hiff.
  destruct (supported arg); split; split; intros; try done.
  - by apply Hiff.
  - exfalso. match goal with Hn : ¬ _ |- _ => apply Hn end. by apply Hiff.
  - destruct Hiff as [_ Hiff]. by specialize (Hiff ltac:(done)).
  - intros Hs. by apply Hiff in Hs.
Qed.

(** C9. With a declared shape (0, N), whatever N, [Run] returns the metric
    zero and the memory it was given, untouched: no element of the output
    or of the two diagnostic vectors is written.  This holds in every
    compute type, also one no division of which is defined: the division
    by N is not reached. *)
Theorem Run_no_rows :
  ∀ (X G B Y S C : Type) `(!ComputeOps C) `(!TypeConvert X C) `(!TypeConvert C Y)
    `(!TypeConvert C S) (arg : @Argument X C) (h : Heap X G B Y S) (N : Z),
    lengths_ arg = [0%Z; N] →
    Run arg h = Some (S754_zero false, h).
Proof.
  intros X G B Y S C ? ? ? ? arg h N Hlens.
  unfold Run. rewrite Hlens. reflexivity.
Qed.

(** C10. Both entry points that take the base pointer dereference the
    result of [dynamic_cast] unchecked.  When the pointer refers to an
    [Argument] of this operator the cast succeeds and they are the test and
    the run on that argument; when it refers to the argument of another
    operator they have undefined behaviour, not the answer false. *)
Theorem base_pointer_downcast :
  ∀ (X G B Y S C : Type) `(!ComputeOps C) `(!TypeConvert X C) `(!TypeConvert C Y)
    `(!TypeConvert C S),
    (∀ (arg : @Argument X C) (h : Heap X G B Y S),
       dynamic_cast (Some (LayernormArgument arg)) = Some arg ∧
       IsSupportedArgument (Some (LayernormArgument arg)) = Some (supported arg) ∧
       Run_base (Some (LayernormArgument arg)) h = Run arg h) ∧
    (∀ (tag : nat) (h : Heap X G B Y S),
       dynamic_cast (XDataType := X) (ComputeDataType := C) (Some (ForeignArgument tag)) = None ∧
       IsSupportedArgument (XDataType := X) (ComputeDataType := C) (Some (ForeignArgument tag)) = None ∧
       IsSupportedArgument (XDataType := X) (ComputeDataType := C) (Some (ForeignArgument tag)) ≠ Some false ∧
       Run_base (XDataType := X) (ComputeDataType := C) (Some (ForeignArgument tag)) h = None).
Proof.
  intros X G B Y S C ? ? ? ?. split.
  - intros arg h. done.
  - intros tag h. done.
Qed.

Lemma Run_no_rows_witness :
  lengths_ Scenario.argument_empty = [0%Z; 4%Z] ∧
  Run (ComputeOps0 := Scenario.no_division) Scenario.argument_empty Scenario.memory
  = Some (S754_zero false, Scenario.memory).
Proof.
  split; [reflexivity|].
  apply (Run_no_rows _ _ _ _ _ _ Scenario.no_division _ _ _
           Scenario.argument_empty Scenario.memory 4%Z).
  reflexivity.
Defined.

(** With one row the division by N is reached: where its result is
    undefined, so is the run. *)
Lemma Run_one_row_reaches_division :
  Run (ComputeOps0 := Scenario.no_division) Scenario.argument Scenario.memory = None.
Proof. reflexivity. Qed.

(** C2. For every row the first pass computes mean = (Σ x) / N and
    variance = (Σ x^2) / N - mean^2, both sums accumulated from zero, left
    to right, in the compute type.  This is the uncentered formula: on the
    row [1, 2, 4] in [float] its result differs from the centered
    Σ (x - mean)^2 / N. *)
Theorem first_pass_uncentered_variance :
  (∀ (X C : Type) `(!ComputeOps C) `(!TypeConvert X C)
     (arg : @Argument X C) (M N : nat),
     has_shape (x_m_n_ arg) [M; N] →
     1 ≤ N →
     (∀ m, m < M → row_defined arg N m) →
     ∃ mean var,
       for_loop (statistics arg (Z.of_nat N)) 0 M
         (make [M] (c_of_int 0), make [M] (c_of_int 0)) = Some (mean, var) ∧
       ∀ m, m < M →
         let sum := foldl c_add (c_of_int 0) (row arg N m) in
         let sumSq := foldl (λ a x, c_add a (c_mul x x)) (c_of_int 0) (row arg N m) in
         let mu := c_div sum (c_of_int (Z.of_nat N)) in
         get mean [m] = Some mu ∧
         get var [m] = Some (c_sub (c_div sumSq (c_of_int (Z.of_nat N))) (c_mul mu mu))) ∧
  (∃ mean v,
     for_loop (statistics Scenario.argument_124 3) 0 1
       (make [1] (c_of_int 0), make [1] (c_of_int 0))
     = Some (mean, mkTensor [1] [v]) ∧
     v ≠ centered_variance (row Scenario.argument_124 3 0) 3).
Proof.
  split.
  - intros X C ? ? arg M N Hx _ Hdef.
    destruct (statistics_loop arg M N M 0
                (replicate (product [M]) (c_of_int 0))
                (replicate (product [M]) (c_of_int 0)))
      as (d1 & d2 & Hrun & _ & _ & Hst & _);
      [done|lia|by rewrite length_replicate, product_1d..|done|].
    exists (mkTensor [M] d1), (mkTensor [M] d2). split; [exact Hrun|].
    intros m Hm. cbn zeta. rewrite !get_1d. apply Hst. lia.
  - do 2 eexists. split; [vm_compute; reflexivity|]. vm_compute. congruence.
Qed.

Lemma first_pass_uncentered_variance_witness :
  has_shape (x_m_n_ Scenario.argument) [1; 4] ∧
  1 ≤ 4 ∧
  (∀ m, m < 1 → row_defined Scenario.argument 4 m) ∧
  ∃ mean var,
    for_loop (statistics Scenario.argument (Z.of_nat 4)) 0 1
      (make [1] (c_of_int 0), make [1] (c_of_int 0)) = Some (mean, var) ∧
    ∀ m, m < 1 →
      let sum := foldl c_add (c_of_int 0) (row Scenario.argument 4 m) in
      let sumSq := foldl (λ a x, c_add a (c_mul x x)) (c_of_int 0)
                     (row Scenario.argument 4 m) in
      let mu := c_div sum (c_of_int (Z.of_nat 4)) in
      get mean [m] = Some mu ∧
      get var [m] = Some (c_sub (c_div sumSq (c_of_int (Z.of_nat 4))) (c_mul mu mu)).
Proof.
  split; [by split|]. split; [lia|].
  split; [intros m _; apply row_defined_total|].
  apply (proj1 first_pass_uncentered_variance _ _ _ _ Scenario.argument 1 4);
    [by split | lia | intros m _; apply row_defined_total].
Defined.

(** What [MakeArgument] puts in the scale and shift members: each element
    of the caller's tensor, converted to the storage type of the input. *)
Lemma MakeArgument_members {X G B Y S C : Type}
    `{!TypeConvert G X} `{!TypeConvert B X}
    (h : Heap X G B Y S) (lx lg lb ly lm li : loc) (op : C → C)
    (lengths reduceDims : list Z) (epsilon : C) (arg : @Argument X C) :
  MakeArgument h lx lg lb ly lm li op lengths reduceDims epsilon = Some arg →
  ∃ x g b,
    h !! lx = Some (ObjX x) ∧ h !! lg = Some (ObjGamma g) ∧
    h !! lb = Some (ObjBeta b) ∧
    x_m_n_ arg = x ∧
    (∀ n, get (gamma_n_ arg) [n] = type_convert X <$> get g [n]) ∧
    (∀ n, get (beta_n_ arg) [n] = type_convert X <$> get b [n]).
Proof.
  unfold MakeArgument. intros Hmk.
  destruct (h !! lx) as [[x| | | |]|]; try done.
  destruct (h !! lg) as [[|g| | |]|]; try done.
  destruct (h !! lb) as [[| |b| |]|]; try done.
  simplify_eq. exists x, g, b. repeat split; try done.
  - intros n. unfold get, CopyAsType. cbn [mLens mData gamma_n_].
    destruct (GetOffsetFromMultiIndex (mLens g) [n]); [|done].
    cbn [mbind option_bind]. apply list_lookup_fmap.
  - intros n. unfold get, CopyAsType. cbn [mLens mData beta_n_].
    destruct (GetOffsetFromMultiIndex (mLens b) [n]); [|done].
    cbn [mbind option_bind]. apply list_lookup_fmap.
Qed.

(** C5 (defect of the code).  The members [gamma_n_] and [beta_n_] are
    declared [Tensor<XDataType>], so every scale and shift element of the
    caller is first converted to the storage type of the input and only
    then to compute precision.  With the input in [half] and the scale
    2049 in [float], the member holds 2048 and [output[0,0]] is not the
    value obtained from converting the scale to compute precision
    directly. *)
Theorem scale_and_shift_pass_through_input_type :
  ∃ (arg : @Argument (float binary16) (float binary32)) h'
     (y_code y_direct : float binary32),
     MakeArgument MixedPrecision.memory 1 2 3 4 5 6 (λ y, y) [1; 4]%Z [1]%Z
       Scenario.epsilon = Some arg ∧
     get MixedPrecision.scale [0] = Some (of_int binary32 2049) ∧
     get (gamma_n_ arg) [0] = Some (of_int binary16 2048) ∧
     Run arg MixedPrecision.memory = Some (S754_zero false, h') ∧
     read_y h' 4%positive [0; 0] = Some y_code ∧
     output_direct MixedPrecision.input MixedPrecision.scale MixedPrecision.shift
       (λ y, y) Scenario.epsilon 4 0 0 = Some y_direct ∧
     near y_code (-274767 # 100) (1 # 100) ∧
     near y_direct (-274901 # 100) (1 # 100) ∧
     y_code ≠ y_direct.
Proof.
  do 4 eexists. split; [reflexivity|].
  split; [reflexivity|]. split; [vm_compute; reflexivity|].
  split; [vm_compute; reflexivity|]. split; [vm_compute; reflexivity|].
  split; [vm_compute; reflexivity|].
  split; [vm_compute; reflexivity|]. split; [vm_compute; reflexivity|].
  vm_compute. congruence.
Qed.

(** C6. [Run] commutes with a permutation of the rows: both runs return,
    the original run leaves in row m its computed output row, mean and
    inverse standard deviation, and on the input whose row p(m) is the row
    m of the original input the output row, the saved mean and the saved
    inverse standard deviation at p(m) are those of the original run at
    m. *)
Theorem Run_commutes_with_row_permutation :
  ∀ (X G B Y S C : Type) `(!ComputeOps C) `(!TypeConvert X C) `(!TypeConvert C Y)
    `(!TypeConvert C S) (arg : @Argument X C) (h : Heap X G B Y S) (M N : nat)
    (p : nat → nat) (x' : Tensor X),
    valid_invocation arg h M N →
    valid_invocation (with_input arg x') h M N →
    row_permutation p M →
    (∀ m n, m < M → n < N → get x' [p m; n] = get (x_m_n_ arg) [m; n]) →
    ∃ h1 h2,
      Run arg h = Some (S754_zero false, h1) ∧
      Run (with_input arg x') h = Some (S754_zero false, h2) ∧
      ∀ m, m < M →
        (∀ n, n < N →
           is_Some (read_y h1 (y_m_n_ arg) [m; n]) ∧
           read_y h1 (y_m_n_ arg) [m; n] = output_at arg N m n ∧
           read_y h2 (y_m_n_ arg) [p m; n] = read_y h1 (y_m_n_ arg) [m; n]) ∧
        read_save h1 (save_mean_m_ arg) [m]
          = Some (type_convert S (mean_at arg N m)) ∧
        read_save h2 (save_mean_m_ arg) [p m] = read_save h1 (save_mean_m_ arg) [m] ∧
        read_save h1 (save_inv_std_m_ arg) [m]
          = Some (type_convert S (inv_std_at arg N m)) ∧
        read_save h2 (save_inv_std_m_ arg) [p m]
          = read_save h1 (save_inv_std_m_ arg) [m].
Proof.
  intros X G B Y S C ? ? ? ? arg h M N p x' Hv1 Hv2 [Hp _] Hrows.
  destruct (Run_correct _ _ _ _ Hv1) as (h1 & Hrun1 & [Hy1 Hs1 Hi1] & _).
  destruct (Run_correct _ _ _ _ Hv2) as (h2 & Hrun2 & [Hy2 Hs2 Hi2] & _).
  exists h1, h2. split; [done|]. split; [done|]. intros m Hm.
  destruct Hy1 as (y1 & Hly1 & _ & Hout1), Hy2 as (y2 & Hly2 & _ & Hout2).
  destruct Hs1 as (s1 & Hls1 & _ & Hmean1), Hs2 as (s2 & Hls2 & _ & Hmean2).
  destruct Hi1 as (i1 & Hli1 & _ & Hinv1), Hi2 as (i2 & Hli2 & _ & Hinv2).
  cbn [with_input y_m_n_ save_mean_m_ save_inv_std_m_] in *.
  assert (row (with_input arg x') N (p m) = row arg N m) as Hrow.
  { eapply row_ext; [apply Hv1|apply Hv2|done|by apply Hp|].
    intros n Hn. by apply Hrows. }
  assert (mean_at (with_input arg x') N (p m) = mean_at arg N m) as Hmean
    by (unfold mean_at; by rewrite Hrow).
  assert (inv_std_at (with_input arg x') N (p m) = inv_std_at arg N m) as Hinv
    by (unfold inv_std_at, variance_at; by rewrite Hrow).
  unfold read_y, read_save. rewrite Hly1, Hly2, Hls1, Hls2, Hli1, Hli2.
  split; [|split; [|split; [|split]]].
  - intros n Hn.
    destruct (Hout1 m n Hm Hn) as [Hsome ->].
    destruct (Hout2 (p m) n (Hp m Hm) Hn) as [_ ->].
    split; [exact Hsome|]. split; [reflexivity|].
    unfold output_at. rewrite Hmean, Hinv.
    cbn [with_input x_m_n_ gamma_n_ beta_n_ y_elementwise_op_].
    by rewrite Hrows.
  - by apply Hmean1.
  - rewrite Hmean1, Hmean2 by auto. by rewrite Hmean.
  - by apply Hinv1.
  - rewrite Hinv1, Hinv2 by auto. by rewrite Hinv.
Qed.

Lemma two_rows_valid (x : Tensor TwoRows.F32)
    (h : Heap TwoRows.F32 TwoRows.F32 TwoRows.F32 TwoRows.F32 TwoRows.F32) :
  has_shape x [2; 2] →
  h !! 4%positive = Some (ObjY (make [2; 2] (Scenario.f32 7))) →
  h !! 5%positive = Some (ObjSave (make [2] (Scenario.f32 8))) →
  h !! 6%positive = Some (ObjSave (make [2] (Scenario.f32 9))) →
  valid_invocation (with_input TwoRows.argument x) h 2 2.
Proof.
  intros Hx H4 H5 H6. split.
  - reflexivity.
  - done.
  - by split.
  - by split.
  - eexists. split; [exact H4|by split].
  - eexists. split; [exact H5|by split].
  - eexists. split; [exact H6|by split].
  - done.
  - intros m _. apply row_defined_total.
Qed.

Lemma Run_commutes_with_row_permutation_witness :
  row_permutation TwoRows.swap 2 ∧
  (∀ m n, m < 2 → n < 2 →
     get TwoRows.swapped [TwoRows.swap m; n] = get TwoRows.input [m; n]) ∧
  ∃ h1 h2,
    Run TwoRows.argument TwoRows.memory = Some (S754_zero false, h1) ∧
    Run (with_input TwoRows.argument TwoRows.swapped) TwoRows.memory
      = Some (S754_zero false, h2) ∧
    ∀ m, m < 2 →
      (∀ n, n < 2 →
         is_Some (read_y h1 (y_m_n_ TwoRows.argument) [m; n]) ∧
         read_y h1 (y_m_n_ TwoRows.argument) [m; n]
           = output_at TwoRows.argument 2 m n ∧
         read_y h2 (y_m_n_ TwoRows.argument) [TwoRows.swap m; n]
           = read_y h1 (y_m_n_ TwoRows.argument) [m; n]) ∧
      read_save h1 (save_mean_m_ TwoRows.argument) [m]
        = Some (type_convert TwoRows.F32 (mean_at TwoRows.argument 2 m)) ∧
      read_save h2 (save_mean_m_ TwoRows.argument) [TwoRows.swap m]
        = read_save h1 (save_mean_m_ TwoRows.argument) [m] ∧
      read_save h1 (save_inv_std_m_ TwoRows.argument) [m]
        = Some (type_convert TwoRows.F32 (inv_std_at TwoRows.argument 2 m)) ∧
      read_save h2 (save_inv_std_m_ TwoRows.argument) [TwoRows.swap m]
        = read_save h1 (save_inv_std_m_ TwoRows.argument) [m].
Proof.
  assert (row_permutation TwoRows.swap 2) as Hperm.
  { split; unfold TwoRows.swap; intros; lia. }
  assert (∀ m n, m < 2 → n < 2 →
            get TwoRows.swapped [TwoRows.swap m; n] = get TwoRows.input [m; n])
    as Hrows.
  { intros [|[|m]] [|[|n]] Hm Hn; try lia; reflexivity. }
  split; [exact Hperm|]. split; [exact Hrows|].
  apply (Run_commutes_with_row_permutation _ _ _ _ _ _ _ _ _ _
           TwoRows.argument TwoRows.memory 2 2 TwoRows.swap TwoRows.swapped).
  - apply (two_rows_valid TwoRows.input); by try split.
  - apply (two_rows_valid TwoRows.swapped); by try split.
  - exact Hperm.
  - exact Hrows.
Defined.

(** C8. On a valid invocation [Run] returns; the tensors of the caller that
    hold an input, a scale or a shift are what they were; and every element
    of the output, of the saved means and of the saved inverse standard
    deviations has been written: each holds its computed value, and the
    three tensors come out the same whatever they held before. *)
Theorem Run_writes_all_outputs_and_no_input :
  ∀ (X G B Y S C : Type) `(!ComputeOps C) `(!TypeConvert X C) `(!TypeConvert C Y)
    `(!TypeConvert C S) (arg : @Argument X C) (h : Heap X G B Y S) (M N : nat),
    valid_invocation arg h M N →
    ∃ h', Run arg h = Some (S754_zero false, h') ∧
      (∀ l t, h !! l = Some (ObjX t) → h' !! l = Some (ObjX t)) ∧
      (∀ l t, h !! l = Some (ObjGamma t) → h' !! l = Some (ObjGamma t)) ∧
      (∀ l t, h !! l = Some (ObjBeta t) → h' !! l = Some (ObjBeta t)) ∧
      (∀ m n, m < M → n < N →
         is_Some (read_y h' (y_m_n_ arg) [m; n]) ∧
         read_y h' (y_m_n_ arg) [m; n] = output_at arg N m n) ∧
      (∀ m, m < M →
         read_save h' (save_mean_m_ arg) [m]
           = Some (type_convert S (mean_at arg N m)) ∧
         read_save h' (save_inv_std_m_ arg) [m]
           = Some (type_convert S (inv_std_at arg N m))) ∧
      (∀ h0, valid_invocation arg h0 M N →
         ∃ h0', Run arg h0 = Some (S754_zero false, h0') ∧
           h0' !! y_m_n_ arg = h' !! y_m_n_ arg ∧
           h0' !! save_mean_m_ arg = h' !! save_mean_m_ arg ∧
           h0' !! save_inv_std_m_ arg = h' !! save_inv_std_m_ arg).
Proof.
  intros X G B Y S C ? ? ? ? arg h M N Hvalid.
  destruct (Run_correct _ _ _ _ Hvalid) as (h' & Hrun & Hcomp & Hframe).
  exists h'. split; [done|].
  destruct Hvalid as [_ _ _ _ (y & Hy & _) (s & Hs & _) (i & Hi & _) _ _].
  split; [|split; [|split; [|split; [|split]]]].
  - intros l t Hl. rewrite Hframe; [done|congruence..].
  - intros l t Hl. rewrite Hframe; [done|congruence..].
  - intros l t Hl. rewrite Hframe; [done|congruence..].
  - intros m n Hm Hn. destruct Hcomp as [(y' & Hy' & _ & Hout) _ _].
    unfold read_y. rewrite Hy'. destruct (Hout m n Hm Hn) as [Hsome ->]. done.
  - intros m Hm.
    destruct Hcomp as [_ (s' & Hs' & _ & Hmean) (i' & Hi' & _ & Hinv)].
    unfold read_save. rewrite Hs', Hi'. split; [by apply Hmean|by apply Hinv].
  - intros h0 Hvalid0.
    destruct (Run_correct _ _ _ _ Hvalid0) as (h0' & Hrun0 & Hcomp0 & _).
    exists h0'. split; [done|]. by eapply computed_unique.
Qed.

Lemma Run_writes_all_outputs_and_no_input_witness :
  valid_invocation TwoRows.argument TwoRows.memory' 2 2 ∧
  ∃ h', Run TwoRows.argument TwoRows.memory' = Some (S754_zero false, h') ∧
    h' !! 1%positive = Some (ObjX TwoRows.input) ∧
    h' !! 4%positive ≠ TwoRows.memory' !! 4%positive ∧
    (∀ m n, m < 2 → n < 2 →
       read_y h' 4%positive [m; n] = output_at TwoRows.argument 2 m n) ∧
    ∃ h0', Run TwoRows.argument TwoRows.memory = Some (S754_zero false, h0') ∧
      h0' !! 4%positive = h' !! 4%positive ∧
      h0' !! 5%positive = h' !! 5%positive ∧
      h0' !! 6%positive = h' !! 6%positive.
Proof.
  assert (valid_invocation TwoRows.argument TwoRows.memory' 2 2) as Hvalid.
  { split; try done; try (by split); (eexists; split; [reflexivity|by split]). }
  split; [exact Hvalid|].
  destruct (Run_writes_all_outputs_and_no_input _ _ _ _ _ _ _ _ _ _
              TwoRows.argument TwoRows.memory' 2 2 Hvalid)
    as (h' & Hrun & Hx & _ & _ & Hy & _ & Hindep).
  exists h'. split; [exact Hrun|]. split; [by apply Hx|]. split.
  - intros Heq. destruct (Hy 0 0) as [_ H00]; [lia..|].
    unfold read_y in H00. cbn [y_m_n_ TwoRows.argument] in H00.
    rewrite Heq in H00. vm_compute in H00. congruence.
  - split; [intros m n Hm Hn; by apply Hy|].
    apply Hindep. apply (two_rows_valid TwoRows.input); by try split.
Defined.

(** *** The inverse standard deviation of a constant row *)

Lemma constant_row_in_float :
  valid_invocation (with_epsilon ConstantRow.argument ConstantRow.epsilon1)
    Scenario.memory 1 4 ∧
  valid_invocation (with_epsilon ConstantRow.argument ConstantRow.epsilon2)
    Scenario.memory 1 4 ∧
  ∀ n, n < 4 → get (x_m_n_ ConstantRow.argument) [0; n] = Some (Scenario.f32 3).
Proof.
  split; [|split].
  - split; try done; try (by split); (eexists; split; [reflexivity|by split]).
  - split; try done; try (by split); (eexists; split; [reflexivity|by split]).
  - intros [|[|[|[|n]]]] Hn; try lia; reflexivity.
Qed.

(** C7, as stated, fails in [float]: on a valid invocation with the
    constant row [3, 3, 3, 3] and the two positive values of [epsilon] that
    follow [1e-5f], the larger [epsilon] gives the same [savedInvStd], not
    one of smaller magnitude. *)
Lemma inv_std_not_strictly_decreasing_in_float :
  valid_invocation (with_epsilon ConstantRow.argument ConstantRow.epsilon1)
    Scenario.memory 1 4 ∧
  valid_invocation (with_epsilon ConstantRow.argument ConstantRow.epsilon2)
    Scenario.memory 1 4 ∧
  (∀ n, n < 4 → get (x_m_n_ ConstantRow.argument) [0; n] = Some (Scenario.f32 3)) ∧
  SFltb (S754_zero false) ConstantRow.epsilon1 = true ∧
  SFltb ConstantRow.epsilon1 ConstantRow.epsilon2 = true ∧
  ∃ h1 h2 s1 s2,
    Run (with_epsilon ConstantRow.argument ConstantRow.epsilon1) Scenario.memory
      = Some (S754_zero false, h1) ∧
    Run (with_epsilon ConstantRow.argument ConstantRow.epsilon2) Scenario.memory
      = Some (S754_zero false, h2) ∧
    read_save h1 6%positive [0] = Some s1 ∧
    read_save h2 6%positive [0] = Some s2 ∧
    s2 = s1 ∧
    SFltb (SFabs s2) (SFabs s1) = false.
Proof.
  destruct constant_row_in_float as (Hv1 & Hv2 & Hc).
  split; [exact Hv1|]. split; [exact Hv2|]. split; [exact Hc|].
  split; [vm_compute; reflexivity|]. split; [vm_compute; reflexivity|].
  do 4 eexists.
  split; [vm_compute; reflexivity|]. split; [vm_compute; reflexivity|].
  split; [vm_compute; reflexivity|]. split; [vm_compute; reflexivity|].
  split; vm_compute; reflexivity.
Qed.

Section ExactArithmetic.

Import Exact.
Local Open Scope R_scope.

Lemma real_sum_replicate (n : nat) : ∀ a c : R,
  foldl Rplus a (replicate n c) = a + INR n * c.
Proof.
  induction n as [|n IH]; intros a c.
  - simpl. lra.
  - cbn [replicate foldl]. rewrite IH, S_INR. lra.
Qed.

Lemma real_sum_sq_replicate (n : nat) : ∀ a c : R,
  foldl (λ s x, s + x * x) a (replicate n c) = a + INR n * (c * c).
Proof.
  induction n as [|n IH]; intros a c.
  - simpl. lra.
  - cbn [replicate foldl]. rewrite IH, S_INR. lra.
Qed.

Lemma real_mean_replicate (N : nat) (c : R) :
  (1 ≤ N)%nat → row_mean (replicate N c) (Z.of_nat N) = c.
Proof.
  intros HN. unfold row_mean, row_sum. cbn [c_add c_div c_of_int real_ops].
  rewrite real_sum_replicate, <- INR_IZR_INZ.
  assert (INR N ≠ 0) by (apply not_0_INR; lia). by field.
Qed.

Lemma real_variance_replicate (N : nat) (c : R) :
  (1 ≤ N)%nat → row_variance (replicate N c) (Z.of_nat N) = 0.
Proof.
  intros HN. unfold row_variance. rewrite real_mean_replicate by done.
  unfold row_sum_sq. cbn [c_add c_sub c_mul c_div c_of_int real_ops].
  rewrite real_sum_sq_replicate, <- INR_IZR_INZ.
  assert (INR N ≠ 0) by (apply not_0_INR; lia). by field.
Qed.

Lemma real_inv_std_zero (e : R) : inv_std 0 e = 1 / sqrt e.
Proof.
  unfold inv_std. cbn [c_add c_div c_sqrt c_of_int real_ops].
  by rewrite Rplus_0_l.
Qed.

Lemma real_inv_std_decreasing (e1 e2 : R) :
  0 < e1 < e2 → Rabs (1 / sqrt e2) < Rabs (1 / sqrt e1).
Proof.
  intros [H1 H2].
  assert (0 < sqrt e1) as Hs1 by (apply sqrt_lt_R0; lra).
  assert (sqrt e1 < sqrt e2) as Hs by (apply sqrt_lt_1_alt; lra).
  assert (0 < 1 / sqrt e1) by (apply Rdiv_lt_0_compat; lra).
  assert (0 < 1 / sqrt e2) by (apply Rdiv_lt_0_compat; lra).
  rewrite !Rabs_pos_eq by lra.
  unfold Rdiv. rewrite !Rmult_1_l. apply Rinv_lt_contravar; [|done].
  apply Rmult_lt_0_compat; lra.
Qed.

Lemma real_constant_row_defined {X : Type} `{!TypeConvert X R}
    (arg : @Argument X R) (M N m : nat) (c : X) (e : R) :
  has_shape (x_m_n_ arg) [M; N] → (m < M)%nat → (1 ≤ N)%nat →
  (∀ n, (n < N)%nat → get (x_m_n_ arg) [m; n] = Some c) →
  0 < e →
  row_defined (with_epsilon arg e) N m.
Proof.
  intros Hx Hm HN Hc He.
  assert (IZR (Z.of_nat N) ≠ 0) as HN0.
  { rewrite <- INR_IZR_INZ. apply not_0_INR. lia. }
  unfold row_defined, variance_at.
  rewrite (row_constant (with_epsilon arg e) M N m c) by done.
  rewrite real_variance_replicate by done.
  cbn [c_div_defined c_of_int c_sqrt c_add real_ops with_epsilon epsilon_].
  repeat split.
  - by destruct (Req_dec_T (IZR (Z.of_nat N)) 0).
  - by destruct (Req_dec_T (IZR (Z.of_nat N)) 0).
  - destruct (Req_dec_T (sqrt (0 + e)) 0) as [Hz|]; [|done].
    assert (0 < sqrt (0 + e)) by (apply sqrt_lt_R0; lra). lra.
Qed.

(** C7, amended.  In arithmetic without rounding (compute and diagnostic
    type the real numbers), for a constant row of N >= 1 elements the
    variance is zero, [savedInvStd[m]] is 1/sqrt(epsilon), and of two
    values 0 < e1 < e2 of [epsilon] the larger gives the strictly smaller
    magnitude. *)
Theorem inv_std_strictly_decreasing_without_rounding :
  ∀ (X G B Y : Type) `(!TypeConvert X R) `(!TypeConvert R Y)
    (arg : @Argument X R) (h : Heap X G B Y R) (M N m : nat) (c : X) (e1 e2 : R),
    valid_invocation (with_epsilon arg e1) h M N →
    valid_invocation (with_epsilon arg e2) h M N →
    (m < M)%nat → (1 ≤ N)%nat →
    (∀ n, (n < N)%nat → get (x_m_n_ arg) [m; n] = Some c) →
    0 < e1 < e2 →
    ∃ h1 h2 s1 s2,
      Run (with_epsilon arg e1) h = Some (S754_zero false, h1) ∧
      Run (with_epsilon arg e2) h = Some (S754_zero false, h2) ∧
      read_save h1 (save_inv_std_m_ arg) [m] = Some s1 ∧
      read_save h2 (save_inv_std_m_ arg) [m] = Some s2 ∧
      s1 = 1 / sqrt e1 ∧ s2 = 1 / sqrt e2 ∧
      Rabs s2 < Rabs s1.
Proof.
  intros X G B Y ? ? arg h M N m c e1 e2 Hv1 Hv2 Hm HN Hc He.
  destruct (Run_correct _ _ _ _ Hv1) as (h1 & Hrun1 & [_ _ Hi1] & _).
  destruct (Run_correct _ _ _ _ Hv2) as (h2 & Hrun2 & [_ _ Hi2] & _).
  destruct Hi1 as (i1 & Hli1 & _ & Hinv1), Hi2 as (i2 & Hli2 & _ & Hinv2).
  cbn [with_epsilon save_inv_std_m_] in *.
  assert (∀ e, inv_std_at (with_epsilon arg e) N m = 1 / sqrt e) as Hclosed.
  { intros e. unfold inv_std_at, variance_at.
    erewrite (row_constant (with_epsilon arg e) M N m c);
      [|apply Hv1|done|done].
    rewrite real_variance_replicate by done. apply real_inv_std_zero. }
  exists h1, h2, (1 / sqrt e1), (1 / sqrt e2).
  split; [done|]. split; [done|].
  unfold read_save. rewrite Hli1, Hli2, Hinv1, Hinv2 by done.
  rewrite !Hclosed. repeat split; try done.
  by apply real_inv_std_decreasing.
Qed.

Lemma real_constant_row (n : nat) :
  (n < 4)%nat → get (x_m_n_ ConstantRow.real_argument) [0%nat; n] = Some 3.
Proof. destruct n as [|[|[|[|n]]]]; intros Hn; try lia; reflexivity. Qed.

Lemma real_constant_row_valid (e : R) :
  0 < e →
  valid_invocation (with_epsilon ConstantRow.real_argument e)
    ConstantRow.real_memory 1 4.
Proof.
  intros He. split; try done; try (by split).
  - eexists. split; [reflexivity|by split].
  - eexists. split; [reflexivity|by split].
  - eexists. split; [reflexivity|by split].
  - intros m Hm. assert (m = 0%nat) as -> by lia.
    apply (real_constant_row_defined ConstantRow.real_argument 1 4 0 3 e);
      [by split | lia | lia | apply real_constant_row | done].
Qed.

Lemma inv_std_strictly_decreasing_without_rounding_witness :
  0 < 1 < 4 ∧
  (∀ n, (n < 4)%nat →
     get (x_m_n_ ConstantRow.real_argument) [0%nat; n] = Some 3) ∧
  ∃ h1 h2 s1 s2,
    Run (with_epsilon ConstantRow.real_argument 1) ConstantRow.real_memory
      = Some (S754_zero false, h1) ∧
    Run (with_epsilon ConstantRow.real_argument 4) ConstantRow.real_memory
      = Some (S754_zero false, h2) ∧
    read_save h1 (save_inv_std_m_ ConstantRow.real_argument) [0%nat] = Some s1 ∧
    read_save h2 (save_inv_std_m_ ConstantRow.real_argument) [0%nat] = Some s2 ∧
    s1 = 1 / sqrt 1 ∧ s2 = 1 / sqrt 4 ∧
    Rabs s2 < Rabs s1.
Proof.
  split; [lra|]. split; [exact real_constant_row|].
  apply (inv_std_strictly_decreasing_without_rounding R R R R _ _
           ConstantRow.real_argument ConstantRow.real_memory 1 4 0 3 1 4).
  - apply real_constant_row_valid. lra.
  - apply real_constant_row_valid. lra.
  - lia.
  - lia.
  - exact real_constant_row.
  - lra.
Defined.

End ExactArithmetic.

(** ** Further properties of the operator *)

(** *** Loops that fail, loops that keep a relation *)

Lemma for_loop_fails {St} (body : nat → St → option St) (j : nat) :
  (∀ s, body j s = None) →
  ∀ k i s, i ≤ j < i + k → for_loop body i k s = None.
Proof.
  intros Hfail. induction k as [|k IH]; intros i s Hj; [lia|].
  rewrite for_loop_S. destruct (decide (i = j)) as [->|Hne].
  - by rewrite Hfail.
  - destruct (body i s) as [s'|]; [|done]. cbn [mbind option_bind].
    apply IH. lia.
Qed.

Lemma for_loop_preserves {St} (Rel : St → St → Prop) (body : nat → St → option St) :
  (∀ s, Rel s s) →
  (∀ a b c, Rel a b → Rel b c → Rel a c) →
  (∀ i s s', body i s = Some s' → Rel s s') →
  ∀ k i s s', for_loop body i k s = Some s' → Rel s s'.
Proof.
  intros Hrefl Htrans Hbody. induction k as [|k IH]; intros i s s' Hrun.
  - simpl in Hrun. by simplify_eq.
  - rewrite for_loop_S in Hrun.
    destruct (body i s) as [s1|] eqn:Hb; [|done]. cbn [mbind option_bind] in Hrun.
    eapply Htrans; [by eapply Hbody|by eapply IH].
Qed.

Section Bounds.

Context {XDataType GammaDataType BetaDataType YDataType
         SaveMeanInvStdDataType ComputeDataType : Type}.
Context `{!ComputeOps ComputeDataType}.
Context `{!TypeConvert XDataType ComputeDataType}.
Context `{!TypeConvert ComputeDataType YDataType}.
Context `{!TypeConvert ComputeDataType SaveMeanInvStdDataType}.

Local Abbreviation Arg := (@Argument XDataType ComputeDataType).
Local Abbreviation Mem :=
  (Heap XDataType GammaDataType BetaDataType YDataType SaveMeanInvStdDataType).

Implicit Types (arg : Arg) (h : Mem).

Lemma write_row_fails arg (N : nat) st m n :
  n < N →
  get (x_m_n_ arg) [m; n] = None ∨ get (gamma_n_ arg) [n] = None ∨
    get (beta_n_ arg) [n] = None →
  ∀ h, write_row arg (Z.of_nat N) st m h = None.
Proof.
  intros Hn Hmiss h. unfold write_row.
  destruct (get st.2 [m]) as [v|]; [|done]. cbn [mbind option_bind].
  destruct (divide _ _) as [divisor|]; [|done]. cbn [mbind option_bind].
  rewrite Nat2Z.id.
  rewrite (for_loop_fails (normalize arg st.1 divisor m) n); [done| |lia].
  intros h0. unfold normalize.
  destruct (get (x_m_n_ arg) [m; n]); [|done]. cbn [mbind option_bind].
  destruct (get (gamma_n_ arg) [n]); [|done]. cbn [mbind option_bind].
  destruct (get (beta_n_ arg) [n]); [|done].
  by destruct Hmiss as [|[|]].
Qed.

End Bounds.

(** X1. When the declared shape reaches an element that the input, the
    scale or the shift tensor does not have, [Run] has undefined behaviour:
    no extent of the members is checked against the shape. *)
Theorem Run_out_of_bounds :
  ∀ (X G B Y S C : Type) `(!ComputeOps C) `(!TypeConvert X C) `(!TypeConvert C Y)
    `(!TypeConvert C S) (arg : @Argument X C) (h : Heap X G B Y S) (M N m n : nat),
    lengths_ arg = [Z.of_nat M; Z.of_nat N] →
    m < M → n < N →
    get (x_m_n_ arg) [m; n] = None ∨ get (gamma_n_ arg) [n] = None ∨
      get (beta_n_ arg) [n] = None →
    Run arg h = None.
Proof.
  intros X G B Y S C ? ? ? ? arg h M N m n Hlens Hm Hn Hmiss.
  unfold Run. rewrite Hlens. cbn [lookup list_lookup mbind option_bind].
  case_decide; [done|]. rewrite Nat2Z.id.
  destruct (for_loop (statistics arg (Z.of_nat N)) 0 M _) as [st|] eqn:Hst; [|done].
  cbn [mbind option_bind].
  rewrite (for_loop_fails (write_row arg (Z.of_nat N) st) m); [done| |lia].
  by apply (write_row_fails arg N st m n).
Qed.

Lemma Run_out_of_bounds_witness :
  lengths_ (with_shape Scenario.argument [1; 5]%Z [1]%Z) = [Z.of_nat 1; Z.of_nat 5] ∧
  get (x_m_n_ (with_shape Scenario.argument [1; 5]%Z [1]%Z)) [0; 4] = None ∧
  Run (with_shape Scenario.argument [1; 5]%Z [1]%Z) Scenario.memory = None.
Proof.
  split; [reflexivity|]. split; [reflexivity|].
  apply (Run_out_of_bounds _ _ _ _ _ _ _ _ _ _
           (with_shape Scenario.argument [1; 5]%Z [1]%Z) Scenario.memory 1 5 0 4);
    [reflexivity | lia | lia | left; reflexivity].
Defined.

(** X2. [Run] reads of the declared shape the first two extents and never
    the reduced axes: an argument that differs only in [reduceDims_] and in
    the extents after the second, which the validator rejects, runs exactly
    as the supported one. *)
Theorem Run_ignores_reduced_axes :
  ∀ (X G B Y S C : Type) `(!ComputeOps C) `(!TypeConvert X C) `(!TypeConvert C Y)
    `(!TypeConvert C S) (arg : @Argument X C) (h : Heap X G B Y S)
    (lengths reduceDims : list Z),
    lengths !! 0 = lengths_ arg !! 0 →
    lengths !! 1 = lengths_ arg !! 1 →
    Run (with_shape arg lengths reduceDims) h = Run arg h.
Proof.
  intros X G B Y S C ? ? ? ? arg h lengths reduceDims H0 H1.
  unfold Run. cbn [lengths_ with_shape]. rewrite H0, H1. reflexivity.
Qed.

Lemma Run_ignores_reduced_axes_witness :
  IsSupportedArgument
    (Some (LayernormArgument (with_shape Scenario.argument [1; 4; 9]%Z [0; 2]%Z)))
    = Some false ∧
  Run (with_shape Scenario.argument [1; 4; 9]%Z [0; 2]%Z) Scenario.memory
    = Run Scenario.argument Scenario.memory.
Proof.
  split; [reflexivity|].
  apply (Run_ignores_reduced_axes _ _ _ _ _ _ _ _ _ _
           Scenario.argument Scenario.memory [1; 4; 9]%Z [0; 2]%Z); reflexivity.
Defined.

(** *** What a run can change *)

Section Frame.

Context {XDataType GammaDataType BetaDataType YDataType
         SaveMeanInvStdDataType ComputeDataType : Type}.
Context `{!ComputeOps ComputeDataType}.
Context `{!TypeConvert XDataType ComputeDataType}.
Context `{!TypeConvert ComputeDataType YDataType}.
Context `{!TypeConvert ComputeDataType SaveMeanInvStdDataType}.

Local Abbreviation Arg := (@Argument XDataType ComputeDataType).
Local Abbreviation Mem :=
  (Heap XDataType GammaDataType BetaDataType YDataType SaveMeanInvStdDataType).

Implicit Types (arg : Arg) (h : Mem).

(** Only the three referenced tensors differ, and they keep their kind and
    extents. *)
Local Definition touched arg h h' : Prop :=
  only_outputs_differ arg h h' ∧ same_layout h h'.

Lemma obj_like_refl (o : Obj XDataType GammaDataType BetaDataType YDataType
                            SaveMeanInvStdDataType) : obj_like o o.
Proof. by destruct o. Qed.

Lemma obj_like_trans (o1 o2 o3 : Obj XDataType GammaDataType BetaDataType YDataType
                                  SaveMeanInvStdDataType) :
  obj_like o1 o2 → obj_like o2 o3 → obj_like o1 o3.
Proof.
  destruct o1, o2, o3; simpl; try congruence; try done.
  - intros [-> ->] [-> ->]. done.
  - intros [-> ->] [-> ->]. done.
Qed.

Lemma touched_refl arg h : touched arg h h.
Proof.
  split; [by intros l|]. intros l. destruct (h !! l); constructor.
  apply obj_like_refl.
Qed.

Lemma touched_trans arg h1 h2 h3 :
  touched arg h1 h2 → touched arg h2 h3 → touched arg h1 h3.
Proof.
  intros [Hd1 Hl1] [Hd2 Hl2]. split.
  - intros l ? ? ?. rewrite Hd2, Hd1 by done. done.
  - intros l. specialize (Hl1 l). specialize (Hl2 l).
    destruct Hl1 as [o1 o2 H12|]; inversion Hl2; subst; constructor.
    by eapply obj_like_trans.
Qed.

Lemma set_layout {T} (t t' : Tensor T) idx v :
  set t idx v = Some t' →
  mLens t = mLens t' ∧ length (mData t) = length (mData t').
Proof.
  unfold set. destruct (GetOffsetFromMultiIndex _ _) as [o|]; [|done].
  cbn [mbind option_bind]. case_decide; [|done]. intros [= <-].
  cbn [mLens mData]. by rewrite length_insert.
Qed.

Lemma store_y_touched arg h idx v h' :
  store_y h (y_m_n_ arg) idx v = Some h' → touched arg h h'.
Proof.
  unfold store_y. destruct (h !! y_m_n_ arg) as [[| | |t|]|] eqn:Hl; try done.
  destruct (set t idx v) as [t'|] eqn:Hset; [|done].
  cbn [mbind option_bind]. intros [= <-]. split.
  - intros l ? _ _. by rewrite lookup_insert_ne.
  - intros l. destruct (decide (l = y_m_n_ arg)) as [->|].
    + rewrite lookup_insert_eq, Hl. constructor. by eapply set_layout.
    + rewrite lookup_insert_ne by done. destruct (h !! l); constructor.
      apply obj_like_refl.
Qed.

Lemma store_save_touched arg h l idx v h' :
  l = save_mean_m_ arg ∨ l = save_inv_std_m_ arg →
  store_save h l idx v = Some h' → touched arg h h'.
Proof.
  intros Hl. unfold store_save.
  destruct (h !! l) as [[| | | |t]|] eqn:Hlook; try done.
  destruct (set t idx v) as [t'|] eqn:Hset; [|done].
  cbn [mbind option_bind]. intros [= <-]. split.
  - intros l' _ ? ?. rewrite lookup_insert_ne; [done|]. by destruct Hl as [->| ->].
  - intros l'. destruct (decide (l' = l)) as [->|].
    + rewrite lookup_insert_eq, Hlook. constructor. by eapply set_layout.
    + rewrite lookup_insert_ne by done. destruct (h !! l'); constructor.
      apply obj_like_refl.
Qed.

Lemma write_row_touched arg N st m h h' :
  write_row arg N st m h = Some h' → touched arg h h'.
Proof.
  unfold write_row.
  destruct (get st.2 [m]) as [v|]; [|done]. cbn [mbind option_bind].
  destruct (divide _ _) as [divisor|]; [|done]. cbn [mbind option_bind].
  destruct (for_loop _ 0 (Z.to_nat N) h) as [h1|] eqn:Hloop; [|done].
  cbn [mbind option_bind].
  destruct (get st.1 [m]) as [mu|]; [|done]. cbn [mbind option_bind].
  destruct (store_save h1 _ _ _) as [h2|] eqn:Hs1; [|done].
  cbn [mbind option_bind]. intros Hs2.
  eapply touched_trans; [|eapply touched_trans].
  - eapply (for_loop_preserves (touched arg)); [apply touched_refl
      |apply touched_trans| |exact Hloop].
    intros n h0 h0'. unfold normalize.
    destruct (get (x_m_n_ arg) [m; n]); [|done]. cbn [mbind option_bind].
    destruct (get (gamma_n_ arg) [n]); [|done]. cbn [mbind option_bind].
    destruct (get (beta_n_ arg) [n]); [|done]. cbn [mbind option_bind].
    destruct (get st.1 [m]); [|done]. cbn [mbind option_bind].
    apply store_y_touched.
  - eapply store_save_touched; [|exact Hs1]. by left.
  - eapply store_save_touched; [|exact Hs2]. by right.
Qed.

Lemma Run_touched arg h r h' :
  Run arg h = Some (r, h') → r = S754_zero false ∧ touched arg h h'.
Proof.
  unfold Run.
  destruct (lengths_ arg !! 0) as [M|]; [|done]. cbn [mbind option_bind].
  destruct (lengths_ arg !! 1) as [N|]; [|done]. cbn [mbind option_bind].
  case_decide; [done|].
  destruct (for_loop (statistics arg N) _ _ _) as [st|]; [|done].
  cbn [mbind option_bind].
  destruct (for_loop (write_row arg N st) _ _ h) as [h1|] eqn:Hloop; [|done].
  cbn [mbind option_bind]. intros [= <- <-]. split; [done|].
  eapply (for_loop_preserves (touched arg)); [apply touched_refl
    |apply touched_trans| |exact Hloop].
  intros m h0 h0'. apply write_row_touched.
Qed.

End Frame.

(** X3. Whatever the argument, valid or not: when [Run] returns, its
    result is the [float] zero, every object of the caller other than the
    three referenced tensors is what it was, and the referenced tensors
    keep their kind, extents and number of elements. *)
Theorem Run_touches_only_the_outputs :
  ∀ (X G B Y S C : Type) `(!ComputeOps C) `(!TypeConvert X C) `(!TypeConvert C Y)
    `(!TypeConvert C S) (arg : @Argument X C) (h h' : Heap X G B Y S)
    (r : spec_float),
    Run arg h = Some (r, h') →
    r = S754_zero false ∧
    (∀ l, l ≠ y_m_n_ arg → l ≠ save_mean_m_ arg → l ≠ save_inv_std_m_ arg →
          h' !! l = h !! l) ∧
    (∀ l, option_Forall2 obj_like (h !! l) (h' !! l)).
Proof.
  intros X G B Y S C ? ? ? ? arg h h' r Hrun.
  destruct (Run_touched arg h r h' Hrun) as (Hr & Hd & Hl). done.
Qed.

Lemma Run_touches_only_the_outputs_witness :
  ∃ r h',
    Run (with_shape Scenario.argument [1; 2]%Z [1]%Z) Scenario.memory = Some (r, h') ∧
    r = S754_zero false ∧
    (∀ l, l ≠ 4%positive → l ≠ 5%positive → l ≠ 6%positive →
          h' !! l = Scenario.memory !! l) ∧
    (∀ l, option_Forall2 obj_like (Scenario.memory !! l) (h' !! l)).
Proof.
  assert (∃ r h', Run (with_shape Scenario.argument [1; 2]%Z [1]%Z) Scenario.memory
                  = Some (r, h')) as (r & h' & Hrun)
    by (do 2 eexists; vm_compute; reflexivity).
  exists r, h'. split; [exact Hrun|].
  exact (Run_touches_only_the_outputs _ _ _ _ _ _ _ _ _ _ _ _ _ _ Hrun).
Defined.

(** *** Consequences of the characterisation of a run *)

Section Consequences.

Context {XDataType GammaDataType BetaDataType YDataType
         SaveMeanInvStdDataType ComputeDataType : Type}.
Context `{!ComputeOps ComputeDataType}.
Context `{!TypeConvert XDataType ComputeDataType}.
Context `{!TypeConvert ComputeDataType YDataType}.
Context `{!TypeConvert ComputeDataType SaveMeanInvStdDataType}.

Local Abbreviation Arg := (@Argument XDataType ComputeDataType).
Local Abbreviation Mem :=
  (Heap XDataType GammaDataType BetaDataType YDataType SaveMeanInvStdDataType).

Implicit Types (arg : Arg) (h : Mem).

(** A run leaves a memory on which the same invocation is valid again. *)
Lemma computed_valid arg h h' M N :
  valid_invocation arg h M N → computed arg h' M N → valid_invocation arg h' M N.
Proof.
  intros [Hl Hx Hg Hb _ _ _ Hne Hdef] [(y & Hy & Hsy & _) (s & Hs & Hss & _)
                                        (i & Hi & Hsi & _)].
  split; eauto.
Qed.

Lemma Run_again arg h h' M N :
  valid_invocation arg h M N →
  Run arg h = Some (S754_zero false, h') →
  Run arg h' = Some (S754_zero false, h').
Proof.
  intros Hvalid Hrun.
  destruct (Run_correct arg h M N Hvalid) as (h1 & Hrun1 & Hcomp & _).
  rewrite Hrun in Hrun1. simplify_eq.
  pose proof (computed_valid _ _ _ _ _ Hvalid Hcomp) as Hvalid'.
  destruct (Run_correct arg h1 M N Hvalid') as (h2 & Hrun2 & Hcomp2 & Hframe2).
  rewrite Hrun2. do 2 f_equal. apply map_eq. intros l.
  destruct (computed_unique arg h1 h2 M N Hcomp Hcomp2) as (Hy & Hs & Hi).
  destruct (decide (l = y_m_n_ arg)) as [->|]; [done|].
  destruct (decide (l = save_mean_m_ arg)) as [->|]; [done|].
  destruct (decide (l = save_inv_std_m_ arg)) as [->|]; [done|].
  by apply Hframe2.
Qed.

End Consequences.

(** X4. Running a valid invocation a second time, on the memory the first
    run left, changes nothing: [Run] reads the inputs from the copies in
    the argument and overwrites every output element with the same value. *)
Theorem Run_twice_is_Run_once :
  ∀ (X G B Y S C : Type) `(!ComputeOps C) `(!TypeConvert X C) `(!TypeConvert C Y)
    `(!TypeConvert C S) (arg : @Argument X C) (h h' : Heap X G B Y S) (M N : nat),
    valid_invocation arg h M N →
    Run arg h = Some (S754_zero false, h') →
    Run arg h' = Some (S754_zero false, h').
Proof.
  intros X G B Y S C ? ? ? ? arg h h' M N. apply Run_again.
Qed.

Lemma Run_twice_is_Run_once_witness :
  valid_invocation Scenario.argument Scenario.memory 1 4 ∧
  ∃ h', Run Scenario.argument Scenario.memory = Some (S754_zero false, h') ∧
        h' ≠ Scenario.memory ∧
        Run Scenario.argument h' = Some (S754_zero false, h').
Proof.
  split; [exact scenario_valid|].
  assert (∃ h', Run Scenario.argument Scenario.memory = Some (S754_zero false, h'))
    as (h' & Hrun) by (eexists; vm_compute; reflexivity).
  exists h'. split; [exact Hrun|]. split.
  - intros ->. vm_compute in Hrun. congruence.
  - exact (Run_twice_is_Run_once _ _ _ _ _ _ _ _ _ _ Scenario.argument
             Scenario.memory h' 1 4 scenario_valid Hrun).
Defined.

(** X5. The results of a row are decided by that row alone: two valid
    invocations that differ only in the input, and whose inputs agree on
    the row m, leave the same output row m, the same [savedMean[m]] and the
    same [savedInvStd[m]], whatever the other rows hold. *)
Theorem Run_row_is_local :
  ∀ (X G B Y S C : Type) `(!ComputeOps C) `(!TypeConvert X C) `(!TypeConvert C Y)
    `(!TypeConvert C S) (arg : @Argument X C) (h : Heap X G B Y S) (M N m : nat)
    (x' : Tensor X),
    valid_invocation arg h M N →
    valid_invocation (with_input arg x') h M N →
    m < M →
    (∀ n, n < N → get x' [m; n] = get (x_m_n_ arg) [m; n]) →
    ∃ h1 h2,
      Run arg h = Some (S754_zero false, h1) ∧
      Run (with_input arg x') h = Some (S754_zero false, h2) ∧
      (∀ n, n < N →
         read_y h2 (y_m_n_ arg) [m; n] = read_y h1 (y_m_n_ arg) [m; n]) ∧
      read_save h2 (save_mean_m_ arg) [m] = read_save h1 (save_mean_m_ arg) [m] ∧
      read_save h2 (save_inv_std_m_ arg) [m] = read_save h1 (save_inv_std_m_ arg) [m].
Proof.
  intros X G B Y S C ? ? ? ? arg h M N m x' Hv1 Hv2 Hm Hrows.
  destruct (Run_correct _ _ _ _ Hv1) as (h1 & Hrun1 & [Hy1 Hs1 Hi1] & _).
  destruct (Run_correct _ _ _ _ Hv2) as (h2 & Hrun2 & [Hy2 Hs2 Hi2] & _).
  exists h1, h2. split; [done|]. split; [done|].
  destruct Hy1 as (y1 & Hly1 & _ & Hout1), Hy2 as (y2 & Hly2 & _ & Hout2).
  destruct Hs1 as (s1 & Hls1 & _ & Hmean1), Hs2 as (s2 & Hls2 & _ & Hmean2).
  destruct Hi1 as (i1 & Hli1 & _ & Hinv1), Hi2 as (i2 & Hli2 & _ & Hinv2).
  cbn [with_input y_m_n_ save_mean_m_ save_inv_std_m_] in *.
  assert (row (with_input arg x') N m = row arg N m) as Hrow.
  { eapply row_ext; [apply Hv1|apply Hv2|done|done|]. exact Hrows. }
  assert (mean_at (with_input arg x') N m = mean_at arg N m) as Hmean
    by (unfold mean_at; by rewrite Hrow).
  assert (inv_std_at (with_input arg x') N m = inv_std_at arg N m) as Hinv
    by (unfold inv_std_at, variance_at; by rewrite Hrow).
  unfold read_y, read_save. rewrite Hly1, Hly2, Hls1, Hls2, Hli1, Hli2.
  split; [|split].
  - intros n Hn.
    destruct (Hout1 m n Hm Hn) as [_ ->]. destruct (Hout2 m n Hm Hn) as [_ ->].
    unfold output_at. rewrite Hmean, Hinv.
    cbn [with_input x_m_n_ gamma_n_ beta_n_ y_elementwise_op_].
    by rewrite Hrows.
  - rewrite Hmean1, Hmean2 by done. by rewrite Hmean.
  - rewrite Hinv1, Hinv2 by done. by rewrite Hinv.
Qed.

Lemma Run_row_is_local_witness :
  (∀ n, n < 2 → get EdgeCases.changed_row [0; n] = get TwoRows.input [0; n]) ∧
  get EdgeCases.changed_row [1; 0] ≠ get TwoRows.input [1; 0] ∧
  ∃ h1 h2,
    Run TwoRows.argument TwoRows.memory = Some (S754_zero false, h1) ∧
    Run (with_input TwoRows.argument EdgeCases.changed_row) TwoRows.memory
      = Some (S754_zero false, h2) ∧
    (∀ n, n < 2 → read_y h2 4%positive [0; n] = read_y h1 4%positive [0; n]) ∧
    read_save h2 5%positive [0] = read_save h1 5%positive [0] ∧
    read_save h2 6%positive [0] = read_save h1 6%positive [0].
Proof.
  assert (∀ n, n < 2 →
            get EdgeCases.changed_row [0; n] = get TwoRows.input [0; n]) as Hrow.
  { intros [|[|n]] Hn; try lia; reflexivity. }
  split; [exact Hrow|]. split; [vm_compute; congruence|].
  apply (Run_row_is_local _ _ _ _ _ _ _ _ _ _
           TwoRows.argument TwoRows.memory 2 2 0 EdgeCases.changed_row).
  - apply (two_rows_valid TwoRows.input); by try split.
  - apply (two_rows_valid EdgeCases.changed_row); by try split.
  - lia.
  - exact Hrow.
Defined.

(** X6. The two diagnostic vectors do not depend on the scale, the shift
    or the post operation, and the saved mean does not depend on [epsilon]
    either: a valid invocation with other values of these leaves the same
    [savedMean], and the same [savedInvStd] when [epsilon] is the same. *)
Theorem diagnostics_ignore_affine_part :
  ∀ (X G B Y S C : Type) `(!ComputeOps C) `(!TypeConvert X C) `(!TypeConvert C Y)
    `(!TypeConvert C S) (arg : @Argument X C) (h : Heap X G B Y S) (M N : nat)
    (gamma beta : Tensor X) (op : C → C) (epsilon : C),
    valid_invocation arg h M N →
    valid_invocation (with_epsilon (with_affine arg gamma beta op) epsilon) h M N →
    ∃ h1 h2,
      Run arg h = Some (S754_zero false, h1) ∧
      Run (with_epsilon (with_affine arg gamma beta op) epsilon) h
        = Some (S754_zero false, h2) ∧
      ∀ m, m < M →
        read_save h2 (save_mean_m_ arg) [m] = read_save h1 (save_mean_m_ arg) [m] ∧
        (epsilon = epsilon_ arg →
         read_save h2 (save_inv_std_m_ arg) [m]
           = read_save h1 (save_inv_std_m_ arg) [m]).
Proof.
  intros X G B Y S C ? ? ? ? arg h M N gamma beta op epsilon Hv1 Hv2.
  destruct (Run_correct _ _ _ _ Hv1) as (h1 & Hrun1 & [_ Hs1 Hi1] & _).
  destruct (Run_correct _ _ _ _ Hv2) as (h2 & Hrun2 & [_ Hs2 Hi2] & _).
  exists h1, h2. split; [done|]. split; [done|]. intros m Hm.
  destruct Hs1 as (s1 & Hls1 & _ & Hmean1), Hs2 as (s2 & Hls2 & _ & Hmean2).
  destruct Hi1 as (i1 & Hli1 & _ & Hinv1), Hi2 as (i2 & Hli2 & _ & Hinv2).
  cbn [with_epsilon with_affine save_mean_m_ save_inv_std_m_] in *.
  unfold read_save. rewrite Hls1, Hls2, Hli1, Hli2.
  rewrite Hmean1, Hmean2, Hinv1, Hinv2 by done.
  split; [reflexivity|]. intros ->. reflexivity.
Qed.

Lemma diagnostics_ignore_affine_part_witness :
  ∃ h1 h2,
    Run TwoRows.argument TwoRows.memory = Some (S754_zero false, h1) ∧
    Run (with_epsilon
           (with_affine TwoRows.argument EdgeCases.other_scale
              EdgeCases.other_shift EdgeCases.square) (Scenario.f32 1))
        TwoRows.memory = Some (S754_zero false, h2) ∧
    ∀ m, m < 2 →
      read_save h2 5%positive [m] = read_save h1 5%positive [m] ∧
      (Scenario.f32 1 = Scenario.epsilon →
       read_save h2 6%positive [m] = read_save h1 6%positive [m]).
Proof.
  apply (diagnostics_ignore_affine_part _ _ _ _ _ _ _ _ _ _
           TwoRows.argument TwoRows.memory 2 2 EdgeCases.other_scale
           EdgeCases.other_shift EdgeCases.square (Scenario.f32 1)).
  - apply (two_rows_valid TwoRows.input); by try split.
  - split; try done; try (by split); (eexists; split; [reflexivity|by split]).
Defined.

(** *** IEEE arithmetic at its edges *)

Section NaN.

Context (p e : Z).

Lemma SFadd_nan_r x : SFadd p e x S754_nan = S754_nan.
Proof. by destruct x. Qed.

Lemma SFsub_nan_r x : SFsub p e x S754_nan = S754_nan.
Proof. by destruct x. Qed.

Lemma SFmul_nan_r x : SFmul p e x S754_nan = S754_nan.
Proof. by destruct x. Qed.

Lemma SFdiv_nan_r x : SFdiv p e x S754_nan = S754_nan.
Proof. by destruct x. Qed.

(** Once a running sum is NaN it stays NaN. *)
Lemma sum_from_nan (g : spec_float → spec_float) (l : list spec_float) :
  foldl (λ a x, SFadd p e a (g x)) S754_nan l = S754_nan.
Proof. induction l as [|x l IH]; [done|]. simpl. exact IH. Qed.

(** A NaN term makes the sum NaN. *)
Lemma sum_with_nan (g : spec_float → spec_float) (l : list spec_float) n x :
  l !! n = Some x → g x = S754_nan →
  ∀ a, foldl (λ a x, SFadd p e a (g x)) a l = S754_nan.
Proof.
  revert n. induction l as [|y l IH]; intros n Hl Hg a; [done|].
  destruct n as [|n]; simpl in *.
  - simplify_eq. rewrite Hg, SFadd_nan_r. apply sum_from_nan.
  - by eapply IH.
Qed.

End NaN.

(** X7. In IEEE arithmetic a NaN in a row reaches everything the row
    yields: on a valid invocation whose input holds a NaN in row m, [Run]
    returns and [savedMean[m]] and [savedInvStd[m]] are NaN and every
    [output[m,n]] is the post operation applied to NaN. *)
Theorem NaN_poisons_its_row :
  ∀ (fX fG fB fY fS fC : format) (arg : @Argument (float fX) (float fC))
    (h : Heap (float fX) (float fG) (float fB) (float fY) (float fS))
    (M N m n0 : nat),
    valid_invocation arg h M N →
    m < M → n0 < N →
    get (x_m_n_ arg) [m; n0] = Some S754_nan →
    ∃ h', Run arg h = Some (S754_zero false, h') ∧
      read_save h' (save_mean_m_ arg) [m] = Some S754_nan ∧
      read_save h' (save_inv_std_m_ arg) [m] = Some S754_nan ∧
      ∀ n, n < N →
        read_y h' (y_m_n_ arg) [m; n]
          = Some (round fY (y_elementwise_op_ arg S754_nan)).
Proof.
  intros fX fG fB fY fS fC arg h M N m n0 Hvalid Hm Hn0 Hnan.
  destruct (Run_correct _ _ _ _ Hvalid)
    as (h' & Hrun & [(y & Hy & _ & Hout) (s & Hs & _ & Hmean) (i & Hi & _ & Hinv)] & _).
  exists h'. split; [done|].
  destruct Hvalid as [_ Hx Hg Hb _ _ _ _ _].
  assert (row arg N m !! n0 = Some S754_nan) as Hrow.
  { destruct (row_lookup arg M N m n0) as (x & Hget & Hr); [done..|].
    rewrite Hnan in Hget. simplify_eq. exact Hr. }
  assert (mean_at arg N m = S754_nan) as Hmu.
  { unfold mean_at, row_mean, row_sum.
    cbn [c_add c_div c_of_int float_ops].
    rewrite (sum_with_nan _ _ (λ x, x) _ n0 S754_nan) by done. done. }
  assert (inv_std_at arg N m = S754_nan) as Hd.
  { unfold inv_std_at, variance_at, row_variance, inv_std. fold (mean_at arg N m).
    rewrite Hmu. cbn [c_add c_sub c_mul c_div c_sqrt c_of_int float_ops].
    cbn [SFmul]. rewrite SFsub_nan_r. cbn [SFadd SFsqrt]. apply SFdiv_nan_r. }
  unfold read_save, read_y. rewrite Hs, Hi, Hy, Hmean, Hinv by done.
  rewrite Hmu, Hd. split; [done|]. split; [done|].
  intros n Hn. destruct (Hout m n Hm Hn) as [_ ->].
  unfold output_at.
  destruct (row_lookup arg M N m n) as (x & -> & _); [done..|].
  destruct (vector_lookup (gamma_n_ arg) N n) as [g ->]; [done..|].
  destruct (vector_lookup (beta_n_ arg) N n) as [b ->]; [done..|].
  cbn [mbind option_bind]. rewrite Hmu, Hd. unfold affine.
  cbn [c_add c_sub c_mul float_ops].
  rewrite SFsub_nan_r. cbn [SFmul SFadd]. done.
Qed.

Lemma NaN_poisons_its_row_witness :
  get (x_m_n_ (with_input TwoRows.argument EdgeCases.with_nan)) [0; 1]
    = Some S754_nan ∧
  ∃ h', Run (with_input TwoRows.argument EdgeCases.with_nan) TwoRows.memory
          = Some (S754_zero false, h') ∧
    read_save h' 5%positive [0] = Some S754_nan ∧
    read_save h' 6%positive [0] = Some S754_nan ∧
    ∀ n, n < 2 → read_y h' 4%positive [0; n] = Some (round binary32 S754_nan).
Proof.
  split; [reflexivity|].
  apply (NaN_poisons_its_row binary32 binary32 binary32 binary32 binary32 binary32
           (with_input TwoRows.argument EdgeCases.with_nan) TwoRows.memory 2 2 0 1).
  - apply (two_rows_valid EdgeCases.with_nan); by try split.
  - lia.
  - lia.
  - reflexivity.
Defined.

(** X8. A reduced axis of extent zero, in IEEE arithmetic: the validator
    accepts the shape, [Run] returns, the mean is 0/0, so [savedMean[m]]
    and [savedInvStd[m]] are NaN for every row whatever [epsilon] is, and
    the output tensor is not written. *)
Theorem Run_no_columns_saves_NaN :
  ∀ (fX fG fB fY fS fC : format) (arg : @Argument (float fX) (float fC))
    (h : Heap (float fX) (float fG) (float fB) (float fY) (float fS)) (M : nat),
    reduceDims_ arg = [1%Z] →
    valid_invocation arg h M 0 →
    IsSupportedArgument (Some (LayernormArgument arg)) = Some true ∧
    ∃ h', Run arg h = Some (S754_zero false, h') ∧
      h' !! y_m_n_ arg = h !! y_m_n_ arg ∧
      ∀ m, m < M →
        read_save h' (save_mean_m_ arg) [m] = Some S754_nan ∧
        read_save h' (save_inv_std_m_ arg) [m] = Some S754_nan.
Proof.
  intros fX fG fB fY fS fC arg h M Hrd Hvalid. split.
  { unfold IsSupportedArgument. cbn [dynamic_cast mbind option_bind]. f_equal.
    apply supported_iff. split; [|done]. by rewrite (valid_lengths _ _ _ _ Hvalid). }
  destruct (Run_correct _ _ _ _ Hvalid)
    as (h' & Hrun & [(y & Hy & Hsy & _) (s & Hs & _ & Hmean) (i & Hi & _ & Hinv)] & _).
  exists h'. split; [done|].
  destruct Hvalid as [_ Hx _ _ (y0 & Hy0 & Hsy0) _ _ _ _]. split.
  - rewrite Hy, Hy0. do 2 f_equal. symmetry.
    eapply tensor_ext_2d; [done..|]. intros m n _ Hn. lia.
  - intros m Hm.
    assert (row arg 0 m = []) as Hrow by (unfold row; by rewrite take_0).
    assert (mean_at arg 0 m = S754_nan) as Hmu.
    { unfold mean_at. rewrite Hrow. reflexivity. }
    assert (inv_std_at arg 0 m = S754_nan) as Hd.
    { unfold inv_std_at, variance_at, inv_std. rewrite Hrow.
      change (row_variance [] (Z.of_nat 0)) with (S754_nan : float fC).
      cbn [c_add c_div c_sqrt float_ops SFadd SFsqrt]. apply SFdiv_nan_r. }
    unfold read_save. rewrite Hs, Hi, Hmean, Hinv by done.
    by rewrite Hmu, Hd.
Qed.

Lemma Run_no_columns_saves_NaN_witness :
  reduceDims_ EdgeCases.no_columns = [1%Z] ∧
  valid_invocation EdgeCases.no_columns EdgeCases.no_columns_memory 2 0 ∧
  IsSupportedArgument (Some (LayernormArgument EdgeCases.no_columns)) = Some true ∧
  ∃ h', Run EdgeCases.no_columns EdgeCases.no_columns_memory
          = Some (S754_zero false, h') ∧
    h' !! 4%positive = EdgeCases.no_columns_memory !! 4%positive ∧
    ∀ m, m < 2 →
      read_save h' 5%positive [m] = Some S754_nan ∧
      read_save h' 6%positive [m] = Some S754_nan.
Proof.
  assert (valid_invocation EdgeCases.no_columns EdgeCases.no_columns_memory 2 0)
    as Hvalid.
  { split; try done; try (by split); (eexists; split; [reflexivity|by split]). }
  split; [reflexivity|]. split; [exact Hvalid|].
  apply (Run_no_columns_saves_NaN binary32 binary32 binary32 binary32 binary32
           binary32 EdgeCases.no_columns EdgeCases.no_columns_memory 2);
    [reflexivity | exact Hvalid].
Defined.

Lemma get_set {T} (t t' : Tensor T) idx v :
  set t idx v = Some t' → get t' idx = Some v.
Proof.
  unfold set, get. destruct (GetOffsetFromMultiIndex (mLens t) idx) as [o|] eqn:Ho;
    [|done].
  cbn [mbind option_bind]. case_decide; [|done]. intros [= <-].
  cbn [mLens mData]. rewrite Ho. cbn [mbind option_bind].
  by apply list_lookup_insert_eq.
Qed.

Lemma update_fails {C : Type} (t : Tensor C) (m : nat) (f : C → option C) (a : C) :
  get t [m] = Some a → f a = None → update t m f = None.
Proof. intros Ha Hf. unfold update. rewrite Ha. cbn [mbind option_bind]. by rewrite Hf. Qed.

Lemma statistics_no_columns {X C : Type} `{!ComputeOps C} `{!TypeConvert X C}
    (arg : @Argument X C) (m : nat) (st : Stats) :
  c_div_defined (c_of_int 0) (c_of_int 0) = false →
  statistics arg 0 m st = None.
Proof.
  intros Hundef. unfold statistics.
  destruct (set st.1 [m] (c_of_int 0)) as [mean|] eqn:Hmean; [|done].
  destruct (set st.2 [m] (c_of_int 0)) as [var|]; [|done].
  change (Z.to_nat 0) with 0. cbn [mbind option_bind for_loop].
  rewrite (update_fails mean m _ (c_of_int 0)); [done|by eapply get_set|].
  unfold divide. by rewrite Hundef.
Qed.

(** X9. A reduced axis of extent zero, in a compute type where 0/0 is
    undefined (the integers of C++, the real numbers): with at least one
    row [Run] reaches the division of the empty sum by zero and has
    undefined behaviour. *)
Theorem Run_no_columns_undefined :
  ∀ (X G B Y S C : Type) `(!ComputeOps C) `(!TypeConvert X C) `(!TypeConvert C Y)
    `(!TypeConvert C S) (arg : @Argument X C) (h : Heap X G B Y S) (M : nat),
    lengths_ arg = [Z.of_nat M; 0%Z] →
    1 ≤ M →
    c_div_defined (c_of_int 0) (c_of_int 0) = false →
    Run arg h = None.
Proof.
  intros X G B Y S C ? ? ? ? arg h M Hlens HM Hundef.
  unfold Run. rewrite Hlens. cbn [lookup list_lookup mbind option_bind].
  case_decide; [done|]. rewrite Nat2Z.id.
  rewrite (for_loop_fails (statistics arg 0) 0); [done| |lia].
  intros st. by apply statistics_no_columns.
Qed.

Section ExactEdge.

Import Exact.

Lemma Run_no_columns_undefined_witness :
  lengths_ EdgeCases.real_no_columns = [Z.of_nat 1; 0%Z] ∧
  c_div_defined (c_of_int 0 : R) (c_of_int 0) = false ∧
  Run EdgeCases.real_no_columns ConstantRow.real_memory = None.
Proof.
  assert (c_div_defined (c_of_int 0 : R) (c_of_int 0) = false) as Hundef.
  { cbn [c_div_defined c_of_int real_ops].
    destruct (Req_dec_T (IZR 0) 0%R) as [|Hne]; [done|]. by destruct Hne. }
  split; [reflexivity|]. split; [exact Hundef|].
  apply (Run_no_columns_undefined R R R R R R _ _ _ _ EdgeCases.real_no_columns
           ConstantRow.real_memory 1); [reflexivity | lia | exact Hundef].
Defined.

End ExactEdge.

(** *** Arithmetic without rounding *)

Section ExactRows.

Import Exact.
Local Open Scope R_scope.

Local Abbreviation rsum f l := (foldr (λ (x s : R), f x + s) 0 l).

Lemma foldl_rsum (f : R → R) (l : list R) : ∀ a,
  foldl (λ s x, s + f x) a l = a + rsum f l.
Proof.
  induction l as [|x l IH]; intros a; cbn [foldl foldr]; [lra|].
  rewrite IH. lra.
Qed.

Lemma rsum_fmap (f : R → R) (l : list R) : foldr Rplus 0 (f <$> l) = rsum f l.
Proof. induction l as [|x l IH]; [done|]. cbn [fmap list_fmap foldr]. by rewrite <- IH. Qed.

Lemma rsum_centered (mu : R) (l : list R) :
  rsum (λ x, (x - mu) * (x - mu)) l =
  rsum (λ x, x * x) l - 2 * mu * rsum (λ x, x) l + INR (length l) * (mu * mu).
Proof.
  induction l as [|x l IH].
  - simpl. lra.
  - cbn [foldr length]. rewrite IH, S_INR. lra.
Qed.

Lemma rsum_centered_nonneg (mu : R) (l : list R) :
  0 <= rsum (λ x, (x - mu) * (x - mu)) l.
Proof.
  induction l as [|x l IH]; cbn [foldr]; [lra|].
  pose proof (Rle_0_sqr (x - mu)) as Hsq. unfold Rsqr in Hsq. lra.
Qed.

Lemma rsum_normalised (mu d : R) (l : list R) :
  rsum (λ x, (x - mu) * d * 1 + 0) l = d * (rsum (λ x, x) l - INR (length l) * mu).
Proof.
  induction l as [|x l IH].
  - simpl. lra.
  - cbn [foldr length]. rewrite IH, S_INR. lra.
Qed.

Lemma rsum_normalised_sq (mu d : R) (l : list R) :
  rsum (λ x, ((x - mu) * d * 1 + 0) * ((x - mu) * d * 1 + 0)) l =
  d * d * rsum (λ x, (x - mu) * (x - mu)) l.
Proof.
  induction l as [|x l IH].
  - simpl. lra.
  - cbn [foldr]. rewrite IH. lra.
Qed.

Lemma real_row_mean (l : list R) (N : nat) :
  row_mean l (Z.of_nat N) = rsum (λ x, x) l / INR N.
Proof.
  unfold row_mean, row_sum. cbn [c_add c_div c_of_int real_ops].
  change Rplus with (λ s x : R, s + (λ y, y) x).
  rewrite foldl_rsum, <- INR_IZR_INZ. f_equal. lra.
Qed.

(** Without rounding the two variance formulas agree, and the variance is
    not negative. *)
Lemma real_variance_centered (l : list R) :
  (1 ≤ length l)%nat →
  let N := Z.of_nat (length l) in
  row_variance l N = centered_variance l N ∧ 0 <= row_variance l N ∧
  centered_variance l N
    = rsum (λ x, (x - row_mean l N) * (x - row_mean l N)) l / INR (length l).
Proof.
  intros Hlen N. subst N.
  assert (INR (length l) ≠ 0) as HN by (apply not_0_INR; lia).
  assert (0 < INR (length l)) as HNpos by (apply lt_0_INR; lia).
  set (mu := row_mean l (Z.of_nat (length l))).
  assert (centered_variance l (Z.of_nat (length l))
          = rsum (λ x, (x - mu) * (x - mu)) l / INR (length l)) as Hc.
  { unfold centered_variance. fold mu.
    cbn [c_add c_sub c_mul c_div c_of_int real_ops].
    rewrite (foldl_rsum (λ x, (x - mu) * (x - mu))), <- INR_IZR_INZ. f_equal. lra. }
  assert (row_variance l (Z.of_nat (length l))
          = rsum (λ x, (x - mu) * (x - mu)) l / INR (length l)) as Hu.
  { unfold row_variance, row_sum_sq. fold mu.
    cbn [c_add c_sub c_mul c_div c_of_int real_ops].
    rewrite (foldl_rsum (λ x, x * x)), <- INR_IZR_INZ, rsum_centered.
    assert (rsum (λ x, x) l = INR (length l) * mu) as ->.
    { unfold mu. rewrite real_row_mean. by field. }
    by field. }
  rewrite Hu, Hc. split; [done|]. split; [|done].
  apply Rmult_le_pos; [apply rsum_centered_nonneg|].
  apply Rlt_le, Rinv_0_lt_compat, HNpos.
Qed.

Lemma real_row_defined {X : Type} `{!TypeConvert X R}
    (arg : @Argument X R) (M N m : nat) :
  has_shape (x_m_n_ arg) [M; N] → (m < M)%nat → (1 ≤ N)%nat →
  0 < epsilon_ arg →
  row_defined arg N m.
Proof.
  intros Hx Hm HN He.
  assert (IZR (Z.of_nat N) ≠ 0) as HN0.
  { rewrite <- INR_IZR_INZ. apply not_0_INR. lia. }
  pose proof (length_row arg M N m Hx Hm) as Hlen.
  destruct (real_variance_centered (row arg N m)) as (_ & Hpos & _); [lia|].
  rewrite Hlen in Hpos.
  unfold row_defined, variance_at.
  cbn [c_div_defined c_of_int c_sqrt c_add real_ops].
  repeat split.
  - by destruct (Req_dec_T (IZR (Z.of_nat N)) 0).
  - by destruct (Req_dec_T (IZR (Z.of_nat N)) 0).
  - destruct (Req_dec_T _ 0) as [Hz|]; [|done].
    assert (0 < sqrt (row_variance (row arg N m) (Z.of_nat N) + epsilon_ arg))
      by (apply sqrt_lt_R0; lra).
    lra.
Qed.

End ExactRows.

Section ExactRun.

Import Exact.
Local Open Scope R_scope.

(** X10. Without rounding the variance the first pass leaves for a row of
    N >= 1 elements is the centered variance Σ (x - mean)^2 / N of the row,
    and it is not negative: the uncentered formula differs from the
    centered one by rounding only. *)
Theorem exact_variance_is_centered :
  ∀ (X : Type) `(!TypeConvert X R) (arg : @Argument X R) (M N : nat),
    has_shape (x_m_n_ arg) [M; N] →
    (1 ≤ N)%nat →
    ∃ mean var,
      for_loop (statistics arg (Z.of_nat N)) 0 M
        (make [M] (c_of_int 0), make [M] (c_of_int 0)) = Some (mean, var) ∧
      ∀ m, (m < M)%nat →
        ∃ v, get var [m] = Some v ∧
             v = centered_variance (row arg N m) (Z.of_nat N) ∧ 0 <= v.
Proof.
  intros X ? arg M N Hx HN.
  destruct (statistics_loop (with_epsilon arg 1) M N M 0
              (replicate (product [M]) (c_of_int 0))
              (replicate (product [M]) (c_of_int 0)))
    as (d1 & d2 & Hrun & _ & _ & Hst & _);
    [done|lia|by rewrite length_replicate, product_1d..| |].
  { intros j Hj. apply (real_row_defined (with_epsilon arg 1) M N j); try done.
    cbn [with_epsilon epsilon_]. lra. }
  exists (mkTensor [M] d1), (mkTensor [M] d2). split; [exact Hrun|].
  intros m Hm. destruct (Hst m) as [_ Hv]; [lia|].
  exists (variance_at arg N m). rewrite get_1d. split; [exact Hv|].
  pose proof (length_row arg M N m Hx Hm) as Hlen.
  destruct (real_variance_centered (row arg N m)) as (Heq & Hpos & _); [lia|].
  rewrite Hlen in Heq, Hpos. done.
Qed.

(** X11. Without rounding, with N >= 1 and [epsilon > 0], no division of a
    run is by zero: on every invocation whose tensors have the extents of
    the declared shape [Run] returns and leaves the computed results. *)
Theorem exact_run_is_defined :
  ∀ (X G B Y S : Type) `(!TypeConvert X R) `(!TypeConvert R Y) `(!TypeConvert R S)
    (arg : @Argument X R) (h : Heap X G B Y S) (M N : nat),
    lengths_ arg = [Z.of_nat M; Z.of_nat N] →
    has_shape (x_m_n_ arg) [M; N] →
    has_shape (gamma_n_ arg) [N] →
    has_shape (beta_n_ arg) [N] →
    (∃ y, h !! y_m_n_ arg = Some (ObjY y) ∧ has_shape y [M; N]) →
    (∃ s, h !! save_mean_m_ arg = Some (ObjSave s) ∧ has_shape s [M]) →
    (∃ s, h !! save_inv_std_m_ arg = Some (ObjSave s) ∧ has_shape s [M]) →
    save_mean_m_ arg ≠ save_inv_std_m_ arg →
    (1 ≤ N)%nat →
    0 < epsilon_ arg →
    (∀ m, (m < M)%nat → row_defined arg N m) ∧
    ∃ h', Run arg h = Some (S754_zero false, h') ∧ computed arg h' M N.
Proof.
  intros X G B Y S ? ? ? arg h M N Hl Hx Hg Hb Hy Hs Hi Hne HN He.
  assert (∀ m, (m < M)%nat → row_defined arg N m) as Hdef.
  { intros m Hm. by apply (real_row_defined arg M N m). }
  split; [exact Hdef|].
  destruct (Run_correct arg h M N) as (h' & Hrun & Hcomp & _); [by split|].
  by exists h'.
Qed.

(** X12. Without rounding, with unit scale, zero shift and the identity as
    post operation, every output row of a valid invocation is normalised:
    its elements sum to zero, and their squares sum to
    N * variance / (variance + epsilon). *)
Theorem exact_rows_are_normalised :
  ∀ (X G B : Type) `(!TypeConvert X R) (arg : @Argument X R) (h : Heap X G B R R)
    (M N m : nat),
    valid_invocation arg h M N →
    (m < M)%nat → (1 ≤ N)%nat →
    0 < epsilon_ arg →
    (∀ n g, get (gamma_n_ arg) [n] = Some g → type_convert R g = 1) →
    (∀ n b, get (beta_n_ arg) [n] = Some b → type_convert R b = 0) →
    (∀ y, y_elementwise_op_ arg y = y) →
    ∃ h' outs,
      Run arg h = Some (S754_zero false, h') ∧
      length outs = N ∧
      (∀ n, (n < N)%nat → read_y h' (y_m_n_ arg) [m; n] = outs !! n) ∧
      foldr Rplus 0 outs = 0 ∧
      foldr Rplus 0 ((λ y, y * y) <$> outs) =
        INR N * (row_variance (row arg N m) (Z.of_nat N)
                 / (row_variance (row arg N m) (Z.of_nat N) + epsilon_ arg)).
Proof.
  intros X G B ? arg h M N m Hvalid Hm HN He Hgamma Hbeta Hop.
  destruct (Run_correct _ _ _ _ Hvalid) as (h' & Hrun & [(y & Hy & _ & Hout) _ _] & _).
  destruct Hvalid as [_ Hx Hg Hb _ _ _ _ _].
  pose proof (length_row arg M N m Hx Hm) as Hlen.
  set (xs := row arg N m) in *.
  set (mu := row_mean xs (Z.of_nat N)).
  set (v := row_variance xs (Z.of_nat N)).
  set (d := inv_std v (epsilon_ arg)).
  exists h', ((λ x, (x - mu) * d * 1 + 0) <$> xs).
  split; [done|]. split; [by rewrite length_fmap|].
  assert (INR N ≠ 0) as HN0 by (apply not_0_INR; lia).
  destruct (real_variance_centered xs) as (Heq & Hpos & Hc); [lia|].
  rewrite Hlen in Heq, Hpos, Hc. fold v in Heq, Hpos. fold mu in Hc.
  assert (d * d = 1 / (v + epsilon_ arg)) as Hdd.
  { unfold d, inv_std. cbn [c_add c_div c_sqrt c_of_int real_ops].
    assert (0 < sqrt (v + epsilon_ arg)) by (apply sqrt_lt_R0; lra).
    transitivity (1 / (sqrt (v + epsilon_ arg) * sqrt (v + epsilon_ arg))).
    - field. lra.
    - rewrite sqrt_sqrt by lra. done. }
  split; [|split].
  - intros n Hn. unfold read_y. rewrite Hy.
    destruct (Hout m n Hm Hn) as [_ ->]. unfold output_at.
    destruct (row_lookup arg M N m n) as (x & Hgx & Hrow); [done..|].
    destruct (vector_lookup (gamma_n_ arg) N n) as [g Hgg]; [done..|].
    destruct (vector_lookup (beta_n_ arg) N n) as [b Hgb]; [done..|].
    rewrite Hgx, Hgg, Hgb. cbn [mbind option_bind].
    rewrite list_lookup_fmap. fold xs in Hrow. rewrite Hrow. cbn [fmap option_fmap option_map].
    f_equal. unfold affine. rewrite Hop, (Hgamma n g Hgg), (Hbeta n b Hgb).
    reflexivity.
  - rewrite rsum_fmap, rsum_normalised, Hlen.
    assert (foldr (λ x s : R, x + s) 0 xs = INR N * mu) as ->.
    { unfold mu. rewrite real_row_mean. by field. }
    lra.
  - rewrite <- list_fmap_compose, rsum_fmap.
    change (foldr _ 0 xs) with
      (foldr (λ x s : R, ((x - mu) * d * 1 + 0) * ((x - mu) * d * 1 + 0) + s) 0 xs).
    rewrite rsum_normalised_sq, Hdd.
    assert (foldr (λ x s : R, (x - mu) * (x - mu) + s) 0 xs = INR N * v) as ->.
    { rewrite Heq, Hc. by field. }
    field. lra.
Qed.

End ExactRun.

Section ExactWitnesses.

Import Exact.
Local Open Scope R_scope.

Lemma real_row_valid :
  valid_invocation (with_input ConstantRow.real_argument EdgeCases.real_row)
    ConstantRow.real_memory 1 4.
Proof.
  split; try done; try (by split).
  - eexists. split; [reflexivity|by split].
  - eexists. split; [reflexivity|by split].
  - eexists. split; [reflexivity|by split].
  - intros m Hm.
    apply (real_row_defined
             (with_input ConstantRow.real_argument EdgeCases.real_row) 1 4 m);
      [by split | done | lia | cbn; lra].
Qed.

Lemma real_unit_scale n (g : R) :
  get (mkTensor [4%nat] [1; 1; 1; 1]) [n] = Some g → g = 1.
Proof. rewrite get_1d. destruct n as [|[|[|[|n]]]]; cbn; intros; by simplify_eq. Qed.

Lemma real_zero_shift n (b : R) :
  get (mkTensor [4%nat] [0; 0; 0; 0]) [n] = Some b → b = 0.
Proof. rewrite get_1d. destruct n as [|[|[|[|n]]]]; cbn; intros; by simplify_eq. Qed.

Lemma exact_variance_is_centered_witness :
  has_shape EdgeCases.real_row [1%nat; 4%nat] ∧
  ∃ mean var,
    for_loop (statistics (with_input ConstantRow.real_argument EdgeCases.real_row)
                (Z.of_nat 4)) 0 1
      (make [1%nat] (c_of_int 0), make [1%nat] (c_of_int 0)) = Some (mean, var) ∧
    ∀ m, (m < 1)%nat →
      ∃ v, get var [m] = Some v ∧
           v = centered_variance
                 (row (with_input ConstantRow.real_argument EdgeCases.real_row) 4 m)
                 (Z.of_nat 4) ∧
           0 <= v.
Proof.
  split; [by split|].
  apply (exact_variance_is_centered R _
           (with_input ConstantRow.real_argument EdgeCases.real_row) 1 4);
    [by split | lia].
Defined.

Lemma exact_run_is_defined_witness :
  0 < epsilon_ (with_input ConstantRow.real_argument EdgeCases.real_row) ∧
  (∀ m, (m < 1)%nat →
     row_defined (with_input ConstantRow.real_argument EdgeCases.real_row) 4 m) ∧
  ∃ h', Run (with_input ConstantRow.real_argument EdgeCases.real_row)
          ConstantRow.real_memory = Some (S754_zero false, h') ∧
        computed (with_input ConstantRow.real_argument EdgeCases.real_row) h' 1 4.
Proof.
  split; [cbn; lra|].
  apply (exact_run_is_defined R R R R R _ _ _
           (with_input ConstantRow.real_argument EdgeCases.real_row)
           ConstantRow.real_memory 1 4); try done; try (by split).
  - eexists. split; [reflexivity|by split].
  - eexists. split; [reflexivity|by split].
  - eexists. split; [reflexivity|by split].
  - lia.
  - cbn. lra.
Defined.

Lemma exact_rows_are_normalised_witness :
  ∃ h' outs,
    Run (with_input ConstantRow.real_argument EdgeCases.real_row)
      ConstantRow.real_memory = Some (S754_zero false, h') ∧
    length outs = 4%nat ∧
    (∀ n, (n < 4)%nat → read_y h' 4%positive [0%nat; n] = outs !! n) ∧
    foldr Rplus 0 outs = 0 ∧
    foldr Rplus 0 ((λ y, y * y) <$> outs) =
      INR 4 * (row_variance
                 (row (with_input ConstantRow.real_argument EdgeCases.real_row) 4 0)
                 (Z.of_nat 4)
               / (row_variance
                    (row (with_input ConstantRow.real_argument EdgeCases.real_row) 4 0)
                    (Z.of_nat 4) + 1)).
Proof.
  apply (exact_rows_are_normalised R R R _
           (with_input ConstantRow.real_argument EdgeCases.real_row)
           ConstantRow.real_memory 1 4 0).
  - exact real_row_valid.
  - lia.
  - lia.
  - cbn. lra.
  - intros n g. apply real_unit_scale.
  - intros n b. apply real_zero_shift.
  - done.
Defined.

End ExactWitnesses.

(** *** From the caller's tensors to the output *)

Lemma get_CopyAsType {From To : Type} `{!TypeConvert From To} (t : Tensor From) idx :
  get (CopyAsType t) idx = type_convert To <$> get t idx.
Proof.
  unfold get, CopyAsType. cbn [mLens mData].
  destruct (GetOffsetFromMultiIndex (mLens t) idx); [|done].
  cbn [mbind option_bind]. apply list_lookup_fmap.
Qed.

(** X13. From [MakeArgument] to the output: when converting a scale or a
    shift element to the storage type of the input and then to compute
    precision gives what the direct conversion gives (as it does when the
    three types are the same), a valid run on the built argument leaves in
    every [output[m,n]] the value of the formula on the caller's own
    tensors. *)
Theorem Run_after_MakeArgument :
  ∀ (X G B Y S C : Type) `(!ComputeOps C) `(!TypeConvert X C) `(!TypeConvert C Y)
    `(!TypeConvert C S) `(!TypeConvert G X) `(!TypeConvert B X)
    `(!TypeConvert G C) `(!TypeConvert B C)
    (h : Heap X G B Y S) (lx lg lb ly lm li : loc) (op : C → C)
    (lengths reduceDims : list Z) (epsilon : C) (arg : @Argument X C)
    (x : Tensor X) (g : Tensor G) (b : Tensor B) (M N : nat),
    MakeArgument h lx lg lb ly lm li op lengths reduceDims epsilon = Some arg →
    h !! lx = Some (ObjX x) →
    h !! lg = Some (ObjGamma g) →
    h !! lb = Some (ObjBeta b) →
    valid_invocation arg h M N →
    (∀ n v, get g [n] = Some v →
            type_convert C (type_convert X v) = type_convert C v) →
    (∀ n v, get b [n] = Some v →
            type_convert C (type_convert X v) = type_convert C v) →
    ∃ h', Run arg h = Some (S754_zero false, h') ∧
      ∀ m n, m < M → n < N →
        is_Some (read_y h' ly [m; n]) ∧
        read_y h' ly [m; n] = output_direct x g b op epsilon N m n.
Proof.
  intros X G B Y S C ? ? ? ? ? ? ? ? h lx lg lb ly lm li op lengths reduceDims
    epsilon arg x g b M N Hmk Hx Hg Hb Hvalid Hgamma Hbeta.
  unfold MakeArgument in Hmk. rewrite Hx, Hg, Hb in Hmk. simplify_eq.
  destruct (Run_correct _ _ _ _ Hvalid) as (h' & Hrun & [(y & Hy & _ & Hout) _ _] & _).
  exists h'. split; [done|]. intros m n Hm Hn.
  cbn [y_m_n_] in Hy. unfold read_y. rewrite Hy.
  destruct (Hout m n Hm Hn) as [Hsome ->]. split; [done|].
  unfold output_at, output_direct, mean_at, inv_std_at, variance_at, row in *.
  cbn [x_m_n_ gamma_n_ beta_n_ y_elementwise_op_ epsilon_] in *.
  rewrite !get_CopyAsType in *.
  destruct (get x [m; n]) as [xv|]; [|by destruct Hsome].
  destruct (get g [n]) as [gv|] eqn:Hgv; [|by destruct Hsome].
  destruct (get b [n]) as [bv|] eqn:Hbv; [|by destruct Hsome].
  cbn [fmap option_fmap option_map mbind option_bind].
  by rewrite (Hgamma n gv Hgv), (Hbeta n bv Hbv).
Qed.

Lemma Run_after_MakeArgument_witness :
  MakeArgument Scenario.memory 1 2 3 4 5 6 (λ y, y) [1; 4]%Z [1]%Z Scenario.epsilon
    = Some Scenario.argument ∧
  (∀ n v, get Scenario.scale [n] = Some v →
          round binary32 (round binary32 v) = round binary32 v) ∧
  (∀ n v, get Scenario.shift [n] = Some v →
          round binary32 (round binary32 v) = round binary32 v) ∧
  ∃ h', Run Scenario.argument Scenario.memory = Some (S754_zero false, h') ∧
    ∀ m n, m < 1 → n < 4 →
      is_Some (read_y h' 4%positive [m; n]) ∧
      read_y h' 4%positive [m; n]
        = output_direct Scenario.input Scenario.scale Scenario.shift (λ y, y)
            Scenario.epsilon 4 m n.
Proof.
  assert (∀ n v, get Scenario.scale [n] = Some v →
                 round binary32 (round binary32 v) = round binary32 v) as Hscale.
  { intros n v. unfold Scenario.scale. rewrite get_1d.
    destruct n as [|[|[|[|n]]]]; cbn; intros; by simplify_eq. }
  assert (∀ n v, get Scenario.shift [n] = Some v →
                 round binary32 (round binary32 v) = round binary32 v) as Hshift.
  { intros n v. unfold Scenario.shift. rewrite get_1d.
    destruct n as [|[|[|[|n]]]]; cbn; intros; by simplify_eq. }
  split; [reflexivity|]. split; [exact Hscale|]. split; [exact Hshift|].
  apply (Run_after_MakeArgument _ _ _ _ _ _ _ _ _ _ _ _ _ _
           Scenario.memory 1 2 3 4 5 6 (λ y, y) [1; 4]%Z [1]%Z Scenario.epsilon
           Scenario.argument Scenario.input Scenario.scale Scenario.shift 1 4);
    [reflexivity | reflexivity | reflexivity | reflexivity | exact scenario_valid
    | exact Hscale | exact Hshift].
Defined.

(** X14. From [MakeArgument] to the output, in general: a valid run on the
    built argument leaves in every [output[m,n]] the value of the formula
    on the caller's tensors in which each scale and shift element is
    converted to the storage type of the input first and to compute
    precision from there. *)
Theorem Run_after_MakeArgument_converts_twice :
  ∀ (X G B Y S C : Type) `(!ComputeOps C) `(!TypeConvert X C) `(!TypeConvert C Y)
    `(!TypeConvert C S) `(!TypeConvert G X) `(!TypeConvert B X)
    (h : Heap X G B Y S) (lx lg lb ly lm li : loc) (op : C → C)
    (lengths reduceDims : list Z) (epsilon : C) (arg : @Argument X C)
    (x : Tensor X) (g : Tensor G) (b : Tensor B) (M N : nat),
    MakeArgument h lx lg lb ly lm li op lengths reduceDims epsilon = Some arg →
    h !! lx = Some (ObjX x) →
    h !! lg = Some (ObjGamma g) →
    h !! lb = Some (ObjBeta b) →
    valid_invocation arg h M N →
    ∃ h', Run arg h = Some (S754_zero false, h') ∧
      ∀ m n, m < M → n < N →
        is_Some (read_y h' ly [m; n]) ∧
        read_y h' ly [m; n] =
        output_direct
          (TypeConvert2 := λ v : G, type_convert C (type_convert X v))
          (TypeConvert3 := λ v : B, type_convert C (type_convert X v))
          x g b op epsilon N m n.
Proof.
  intros X G B Y S C ? ? ? ? ? ? h lx lg lb ly lm li op lengths reduceDims
    epsilon arg x g b M N Hmk Hx Hg Hb Hvalid.
  unfold MakeArgument in Hmk. rewrite Hx, Hg, Hb in Hmk. simplify_eq.
  destruct (Run_correct _ _ _ _ Hvalid) as (h' & Hrun & [(y & Hy & _ & Hout) _ _] & _).
  exists h'. split; [done|]. intros m n Hm Hn.
  cbn [y_m_n_] in Hy. unfold read_y. rewrite Hy.
  destruct (Hout m n Hm Hn) as [Hsome ->]. split; [done|].
  unfold output_at, output_direct, mean_at, inv_std_at, variance_at, row in *.
  cbn [x_m_n_ gamma_n_ beta_n_ y_elementwise_op_ epsilon_] in *.
  rewrite !get_CopyAsType in *.
  destruct (get x [m; n]) as [xv|]; [|by destruct Hsome].
  destruct (get g [n]) as [gv|]; [|by destruct Hsome].
  destruct (get b [n]) as [bv|]; [|by destruct Hsome].
  reflexivity.
Qed.

Lemma mixed_precision_valid :
  ∃ arg,
    MakeArgument MixedPrecision.memory 1 2 3 4 5 6 (λ y, y) [1; 4]%Z [1]%Z
      Scenario.epsilon = Some arg ∧
    valid_invocation arg MixedPrecision.memory 1 4.
Proof.
  eexists. split; [reflexivity|].
  split; try done; try (by split); (eexists; split; [reflexivity|by split]).
Qed.

Lemma Run_after_MakeArgument_converts_twice_witness :
  ∃ arg h',
    MakeArgument MixedPrecision.memory 1 2 3 4 5 6 (λ y, y) [1; 4]%Z [1]%Z
      Scenario.epsilon = Some arg ∧
    Run arg MixedPrecision.memory = Some (S754_zero false, h') ∧
    ∀ m n, m < 1 → n < 4 →
      is_Some (read_y h' 4%positive [m; n]) ∧
      read_y h' 4%positive [m; n] =
      output_direct
        (TypeConvert2 := λ v : float binary32, round binary32 (round binary16 v))
        (TypeConvert3 := λ v : float binary32, round binary32 (round binary16 v))
        MixedPrecision.input MixedPrecision.scale MixedPrecision.shift (λ y, y)
        Scenario.epsilon 4 m n.
Proof.
  destruct mixed_precision_valid as (arg & Hmk & Hvalid).
  exists arg.
  destruct (Run_after_MakeArgument_converts_twice _ _ _ _ _ _ _ _ _ _ _ _
              MixedPrecision.memory 1 2 3 4 5 6 (λ y, y) [1; 4]%Z [1]%Z
              Scenario.epsilon arg MixedPrecision.input MixedPrecision.scale
              MixedPrecision.shift 1 4 Hmk eq_refl eq_refl eq_refl Hvalid)
    as (h' & Hrun & Hout).
  exists h'. split; [exact Hmk|]. split; [exact Hrun|]. exact Hout.
Defined.

(** X15. An output column is decided by the scale and shift of that
    column: two valid invocations that differ only in scale and shift, and
    whose scales and shifts agree at the column n, leave the same
    [output[m,n]] in every row. *)
Theorem Run_column_is_local :
  ∀ (X G B Y S C : Type) `(!ComputeOps C) `(!TypeConvert X C) `(!TypeConvert C Y)
    `(!TypeConvert C S) (arg : @Argument X C) (h : Heap X G B Y S) (M N n : nat)
    (gamma beta : Tensor X),
    valid_invocation arg h M N →
    valid_invocation (with_affine arg gamma beta (y_elementwise_op_ arg)) h M N →
    n < N →
    get gamma [n] = get (gamma_n_ arg) [n] →
    get beta [n] = get (beta_n_ arg) [n] →
    ∃ h1 h2,
      Run arg h = Some (S754_zero false, h1) ∧
      Run (with_affine arg gamma beta (y_elementwise_op_ arg)) h
        = Some (S754_zero false, h2) ∧
      ∀ m, m < M →
        read_y h2 (y_m_n_ arg) [m; n] = read_y h1 (y_m_n_ arg) [m; n].
Proof.
  intros X G B Y S C ? ? ? ? arg h M N n gamma beta Hv1 Hv2 Hn Hgamma Hbeta.
  destruct (Run_correct _ _ _ _ Hv1) as (h1 & Hrun1 & [(y1 & Hy1 & _ & Hout1) _ _] & _).
  destruct (Run_correct _ _ _ _ Hv2) as (h2 & Hrun2 & [(y2 & Hy2 & _ & Hout2) _ _] & _).
  exists h1, h2. split; [done|]. split; [done|]. intros m Hm.
  cbn [with_affine y_m_n_] in *. unfold read_y. rewrite Hy1, Hy2.
  destruct (Hout1 m n Hm Hn) as [_ ->]. destruct (Hout2 m n Hm Hn) as [_ ->].
  unfold output_at. cbn [with_affine x_m_n_ gamma_n_ beta_n_ y_elementwise_op_].
  rewrite Hgamma, Hbeta. reflexivity.
Qed.

Lemma Run_column_is_local_witness :
  get EdgeCases.other_scale [1] ≠ get (gamma_n_ TwoRows.argument) [1] ∧
  ∃ h1 h2,
    Run TwoRows.argument TwoRows.memory = Some (S754_zero false, h1) ∧
    Run (with_affine TwoRows.argument
           (mkTensor [2] [Scenario.f32 2; Scenario.f32 6])
           (mkTensor [2] [Scenario.f32 1; Scenario.f32 8]) (λ y, y))
        TwoRows.memory = Some (S754_zero false, h2) ∧
    ∀ m, m < 2 → read_y h2 4%positive [m; 0] = read_y h1 4%positive [m; 0].
Proof.
  split; [vm_compute; congruence|].
  apply (Run_column_is_local _ _ _ _ _ _ _ _ _ _ TwoRows.argument TwoRows.memory
           2 2 0 (mkTensor [2] [Scenario.f32 2; Scenario.f32 6])
           (mkTensor [2] [Scenario.f32 1; Scenario.f32 8])).
  - apply (two_rows_valid TwoRows.input); by try split.
  - split; try done; try (by split); (eexists; split; [reflexivity|by split]).
  - lia.
  - reflexivity.
  - reflexivity.
Defined.

Section ExactAffine.

Import Exact.
Local Open Scope R_scope.

(** X16. Without rounding and with the identity as post operation, the
    scale and the shift act on the normalised value: [output[m,n]] is the
    output of the same invocation with unit scale and zero shift, times
    [scale[n]], plus [shift[n]]. *)
Theorem exact_output_is_affine_in_unit_output :
  ∀ (X G B : Type) `(!TypeConvert X R) (arg : @Argument X R) (h : Heap X G B R R)
    (M N : nat) (ones zeros : Tensor X),
    valid_invocation arg h M N →
    valid_invocation (with_affine arg ones zeros (λ y, y)) h M N →
    (∀ y, y_elementwise_op_ arg y = y) →
    (∀ n v, get ones [n] = Some v → type_convert R v = 1) →
    (∀ n v, get zeros [n] = Some v → type_convert R v = 0) →
    ∃ h1 h2,
      Run arg h = Some (S754_zero false, h1) ∧
      Run (with_affine arg ones zeros (λ y, y)) h = Some (S754_zero false, h2) ∧
      ∀ m n, (m < M)%nat → (n < N)%nat →
        ∃ u g b,
          read_y h2 (y_m_n_ arg) [m; n] = Some u ∧
          get (gamma_n_ arg) [n] = Some g ∧
          get (beta_n_ arg) [n] = Some b ∧
          read_y h1 (y_m_n_ arg) [m; n]
            = Some (u * type_convert R g + type_convert R b).
Proof.
  intros X G B ? arg h M N ones zeros Hv1 Hv2 Hop Hones Hzeros.
  destruct (Run_correct _ _ _ _ Hv1) as (h1 & Hrun1 & [(y1 & Hy1 & _ & Hout1) _ _] & _).
  destruct (Run_correct _ _ _ _ Hv2) as (h2 & Hrun2 & [(y2 & Hy2 & _ & Hout2) _ _] & _).
  exists h1, h2. split; [done|]. split; [done|]. intros m n Hm Hn.
  cbn [with_affine y_m_n_] in *. unfold read_y. rewrite Hy1, Hy2.
  destruct (Hout1 m n Hm Hn) as [_ ->]. destruct (Hout2 m n Hm Hn) as [_ ->].
  destruct Hv1 as [_ Hx Hg Hb _ _ _ _ _]. destruct Hv2 as [_ _ Hg2 Hb2 _ _ _ _ _].
  cbn [with_affine gamma_n_ beta_n_] in Hg2, Hb2.
  unfold output_at. cbn [with_affine x_m_n_ gamma_n_ beta_n_ y_elementwise_op_].
  destruct (row_lookup arg M N m n) as (x & -> & _); [done..|].
  destruct (vector_lookup (gamma_n_ arg) N n) as [g ->]; [done..|].
  destruct (vector_lookup (beta_n_ arg) N n) as [b ->]; [done..|].
  destruct (vector_lookup ones N n) as [o Ho]; [done..|].
  destruct (vector_lookup zeros N n) as [z Hz]; [done..|].
  rewrite Ho, Hz. cbn [mbind option_bind].
  eexists _, g, b. split; [reflexivity|]. split; [done|]. split; [done|].
  f_equal. unfold affine. rewrite Hop, (Hones n o Ho), (Hzeros n z Hz).
  change (mean_at (with_affine arg ones zeros (λ y : R, y)) N m) with (mean_at arg N m).
  change (inv_std_at (with_affine arg ones zeros (λ y : R, y)) N m)
    with (inv_std_at arg N m).
  unfold type_convert, real_convert.
  cbn beta. cbn [c_add c_sub c_mul real_ops]. lra.
Qed.

Lemma exact_output_is_affine_in_unit_output_witness :
  let arg := with_affine (with_input ConstantRow.real_argument EdgeCases.real_row)
               (mkTensor [4%nat] [2; 2; 2; 2]) (mkTensor [4%nat] [1; 1; 1; 1])
               (λ y, y) in
  let ones := mkTensor [4%nat] [1; 1; 1; 1] in
  let zeros := mkTensor [4%nat] [0; 0; 0; 0] in
  ∃ h1 h2,
    Run arg ConstantRow.real_memory = Some (S754_zero false, h1) ∧
    Run (with_affine arg ones zeros (λ y, y)) ConstantRow.real_memory
      = Some (S754_zero false, h2) ∧
    ∀ m n, (m < 1)%nat → (n < 4)%nat →
      ∃ u g b,
        read_y h2 4%positive [m; n] = Some u ∧
        get (gamma_n_ arg) [n] = Some g ∧
        get (beta_n_ arg) [n] = Some b ∧
        read_y h1 4%positive [m; n] = Some (u * g + b).
Proof.
  intros arg ones zeros.
  assert (∀ a, x_m_n_ a = EdgeCases.real_row → has_shape (gamma_n_ a) [4%nat] →
               has_shape (beta_n_ a) [4%nat] → epsilon_ a = 1 →
               lengths_ a = [1; 4]%Z → y_m_n_ a = 4%positive →
               save_mean_m_ a = 5%positive → save_inv_std_m_ a = 6%positive →
               valid_invocation a ConstantRow.real_memory 1 4) as Hvalid.
  { intros a Hx Hg Hb He Hl Hy Hs Hi. split; try done.
    - rewrite Hx. by split.
    - rewrite Hy. eexists. split; [reflexivity|by split].
    - rewrite Hs. eexists. split; [reflexivity|by split].
    - rewrite Hi. eexists. split; [reflexivity|by split].
    - by rewrite Hs, Hi.
    - intros m Hm. apply (real_row_defined a 1 4 m);
        [rewrite Hx; by split | done | lia | rewrite He; lra]. }
  apply (exact_output_is_affine_in_unit_output R R R _ arg
           ConstantRow.real_memory 1 4 ones zeros).
  - apply Hvalid; try done; by split.
  - apply Hvalid; try done; by split.
  - done.
  - intros n v. apply real_unit_scale.
  - intros n v. apply real_zero_shift.
Defined.

End ExactAffine.
